(** * pp_highlighting: the scan-and-reconstruct engine of [PPHighlighter]

    A shallow embedding of [src/pp_highlighting/pp_highlighter.py].

    - Python [str] values are Rocq strings; every character stands for one
      code point below 256.  Offsets and lengths are natural numbers, as
      pyparsing locations are.
    - The instance attribute [self._fragments] (a [dict] from start offset to
      [(style, text)]) is a [gmap nat Fragment].
    - The pyparsing grammar is external.  It is a record of two effectful
      operations, [preParse] and [_parse]; each call may change the grammar's
      own state, may run the parse action installed by [styler] any number of
      times, and ends by returning a location or by raising.  Streamlining
      and [resetCache] only prepare the grammar and are not modelled.
    - [warn(message, RuntimeWarning)] appends [message] to a list.
    - The two [while] loops take a bound on the number of iterations they may
      run; [OutOfFuel] says that the bound was reached with the loop still
      running.

    The first part holds the definitions, the second part the properties. *)

From Stdlib Require Import String Ascii Arith Lia.
From stdpp Require Import gmap strings list sorting.


(** ** Python string primitives *)

(** [s[a:b]] for non-negative [a] and [b]: empty when [b <= a] or when [a] is
    past the end, cut at the end of [s] otherwise. *)
Definition slice (s : string) (a b : nat) : string := substring a (b - a) s.

(** [''.join(l)] *)
Definition join_all (l : list string) : string := String.concat "" l.

(** ** Exceptions and results *)

Inductive exn : Type :=
| ParseBaseException
    (* pp.ParseBaseException or a subclass: the grammar's own no-match signal *)
| OtherException (kind msg : string).
    (* any other [Exception]; [kind] is [type(err).__name__], [msg] is [str(err)] *)

Inductive Res (A : Type) : Type :=
| Ok (a : A)
| Raise (e : exn)
| OutOfFuel.
Arguments Ok {A} a.
Arguments Raise {A} e.
Arguments OutOfFuel {A}.

(** ** Styles and fragments *)

(** A Pygments token, as the path of names from the root [Token]:
    [Token.Text] is [["Text"]]. *)
Definition Token : Type := list string.

Inductive StyleTag : Type :=
| StyleStr (st : string)
| StyleTok (tok : Token).

Definition Fragment : Type := StyleTag * string.
Definition FormattedText : Type := list Fragment.

Definition texts (fragments : FormattedText) : list string := map snd fragments.

(** ** The parse action installed by [styler]

    [action(s, loc, toks)] runs [self._fragments[loc] = (style, s[loc:toks.pop()])];
    the popped token is the end location that [Locator.parseImpl] appended.
    One run of the action is described by the style it closes over, the
    location it is called with and that end location. *)
Record ActionCall : Type := MkActionCall {
  ac_style : StyleTag;
  ac_loc : nat;
  ac_end : nat
}.

Definition action (s : string) (_fragments : gmap nat Fragment) (c : ActionCall)
  : gmap nat Fragment :=
  <[ac_loc c := (ac_style c, slice s (ac_loc c) (ac_end c))]> _fragments.

Definition run_actions (s : string) (_fragments : gmap nat Fragment)
    (calls : list ActionCall) : gmap nat Fragment :=
  foldl (action s) _fragments calls.

(** ** The grammar, as [_scan_string] uses it *)

(** What one call into the grammar did: its new state, the runs of the parse
    action it made (in order), and how it ended. *)
Definition Outcome (G : Type) : Type := G * list ActionCall * (exn + nat).

Record Grammar (G : Type) : Type := MkGrammar {
  (* self._parser.preParse(s, loc): returns preloc *)
  preParse : G -> string -> nat -> Outcome G;
  (* self._parser._parse(s, preloc, callPreParse=False): returns nextloc *)
  _parse : G -> string -> nat -> Outcome G
}.
Arguments preParse {G} _ _ _ _.
Arguments _parse {G} _ _ _ _.

(** ** [PPHighlighter._scan_string] *)

Record ScanState (G : Type) : Type := MkScan {
  sc_loc : nat;                          (* loc *)
  sc_preloc : option nat;                (* preloc, None until first assigned *)
  sc_fragments : gmap nat Fragment;      (* self._fragments *)
  sc_grammar : G;                        (* the grammar's own state *)
  sc_warnings : list string;             (* messages passed to warn(), oldest first *)
  sc_iterations : nat                    (* loop bodies run so far *)
}.
Arguments MkScan {G} _ _ _ _ _ _.
Arguments sc_loc {G} _.
Arguments sc_preloc {G} _.
Arguments sc_fragments {G} _.
Arguments sc_grammar {G} _.
Arguments sc_warnings {G} _.
Arguments sc_iterations {G} _.

(** ['Exception during parsing: {}: {}'.format(type(err).__name__, err)] *)
Definition warning_message (kind msg : string) : string :=
  "Exception during parsing: " +:+ kind +:+ ": " +:+ msg.

(** The [except Exception as err] branch. *)
Definition except_branch {G : Type} (err : exn) (st : ScanState G)
  : ScanState G + exn :=
  match sc_preloc st with
  | None => inr err
  | Some preloc =>
      inl (MkScan (preloc + 1) (sc_preloc st) (sc_fragments st) (sc_grammar st)
             (match err with
              | ParseBaseException => sc_warnings st
              | OtherException kind msg =>
                  sc_warnings st ++ [warning_message kind msg]
              end)
             (sc_iterations st))
  end.

(** One run of the body of [while loc <= len(s)]. *)
Definition scan_iteration {G : Type} (g : Grammar G) (s : string)
    (st : ScanState G) : ScanState G + exn :=
  let '(g1, calls1, r1) := preParse g (sc_grammar st) s (sc_loc st) in
  let st1 := MkScan (sc_loc st) (sc_preloc st)
               (run_actions s (sc_fragments st) calls1) g1
               (sc_warnings st) (S (sc_iterations st)) in
  match r1 with
  | inl err => except_branch err st1
  | inr preloc =>
      let '(g2, calls2, r2) := _parse g g1 s preloc in
      let st2 := MkScan (sc_loc st) (Some preloc)
                   (run_actions s (sc_fragments st1) calls2) g2
                   (sc_warnings st) (S (sc_iterations st)) in
      match r2 with
      | inl err => except_branch err st2
      | inr nextloc =>
          inl (MkScan (if sc_loc st <? nextloc then nextloc else preloc + 1)
                 (Some preloc) (sc_fragments st2) g2
                 (sc_warnings st) (S (sc_iterations st)))
      end
  end.

Fixpoint scan_loop {G : Type} (fuel : nat) (g : Grammar G) (s : string)
    (st : ScanState G) : Res (ScanState G) :=
  if sc_loc st <=? String.length s then
    match fuel with
    | 0 => OutOfFuel
    | S fuel' =>
        match scan_iteration g s st with
        | inl st' => scan_loop fuel' g s st'
        | inr err => Raise err
        end
    end
  else Ok st.

Definition scan_init {G : Type} (g0 : G) (_fragments : gmap nat Fragment)
  : ScanState G :=
  MkScan 0 None _fragments g0 [] 0.

Definition _scan_string {G : Type} (fuel : nat) (g : Grammar G) (g0 : G)
    (s : string) (_fragments : gmap nat Fragment) : Res (ScanState G) :=
  scan_loop fuel g s (scan_init g0 _fragments).

(** ** [PPHighlighter._highlight] and [PPHighlighter.highlight] *)

Definition default_style (pygments_styles : bool) : StyleTag :=
  if pygments_styles then StyleTok ["Text"] else StyleStr "".

(** [sorted(self._fragments)] *)
Definition sorted_keys (_fragments : gmap nat Fragment) : list nat :=
  merge_sort Nat.le (elements (dom _fragments)).

Definition IndexError : exn := OtherException "IndexError" "list index out of range".

(** The loop [while loc < len(s)] of [_highlight]; [fragments] is the list
    built so far. A stored fragment is a 2-tuple, so [if fragment:] tests
    only whether [self._fragments.get(loc)] found the key. *)
Fixpoint gather (fuel : nat) (s : string) (_fragments : gmap nat Fragment)
    (locs : list nat) (dflt : StyleTag) (i loc : nat)
    (fragments : FormattedText) : Res FormattedText :=
  if loc <? String.length s then
    match fuel with
    | 0 => OutOfFuel
    | S fuel' =>
        match _fragments !! loc with
        | Some fragment =>
            gather fuel' s _fragments locs dflt (i + 1)
              (loc + String.length (snd fragment)) (fragments ++ [fragment])
        | None =>
            match locs !! i with
            | Some b =>
                gather fuel' s _fragments locs dflt i b
                  (fragments ++ [(dflt, slice s loc b)])
            | None => Raise IndexError
            end
        end
    end
  else Ok fragments.

(** The part of [_highlight] after the scan. *)
Definition reconstruct (fuel : nat) (pygments_styles : bool) (s : string)
    (_fragments : gmap nat Fragment) : Res FormattedText :=
  let locs := sorted_keys _fragments ++ [String.length s] in
  gather fuel s _fragments locs (default_style pygments_styles) 0 0 [].

Definition _highlight {G : Type} (fuel : nat) (g : Grammar G) (g0 : G)
    (pygments_styles : bool) (s : string) : Res FormattedText :=
  match _scan_string fuel g g0 s ∅ with
  | Ok st => reconstruct fuel pygments_styles s (sc_fragments st)
  | Raise err => Raise err
  | OutOfFuel => OutOfFuel
  end.

Section Highlight.

(** prompt_toolkit's [to_formatted_text(PygmentsTokens(fragments))] walks
    the fragments in order, keeps every text and replaces each token by a
    style string of the library's; on a style that is a string it fails,
    since it concatenates a tuple with the style. *)
Variable pygments_display : StyleTag -> StyleTag.

Definition StyleTypeError : exn :=
  OtherException "TypeError"
    ("can only concatenate tuple (not " +:+ String "034"%char "str"
     +:+ String "034"%char ") to tuple").

Fixpoint to_formatted_text (fragments : FormattedText) : Res FormattedText :=
  match fragments with
  | [] => Ok []
  | (StyleStr _, _) :: _ => Raise StyleTypeError
  | (StyleTok tok, text) :: rest =>
      match to_formatted_text rest with
      | Ok shown => Ok ((pygments_display (StyleTok tok), text) :: shown)
      | Raise err => Raise err
      | OutOfFuel => OutOfFuel
      end
  end.

Definition highlight {G : Type} (fuel : nat) (g : Grammar G) (g0 : G)
    (pygments_styles : bool) (s : string) : Res FormattedText :=
  match _highlight fuel g g0 pygments_styles s with
  | Ok fragments =>
      if pygments_styles then to_formatted_text fragments
      else Ok fragments
  | Raise err => Raise err
  | OutOfFuel => OutOfFuel
  end.

End Highlight.

(** ** [PPHighlighter.highlight_html] *)

(** [str.isspace] on a code point below 256: this is what [str.split()]
    with no argument splits on. *)
Definition py_isspace (c : ascii) : bool :=
  let n := nat_of_ascii c in
  ((9 <=? n) && (n <=? 13)) || ((28 <=? n) && (n <=? 32))
  || (n =? 133) || (n =? 160).

(** [style.split()]: the maximal runs of non-space characters, in order.
    [word] is the run being read. *)
Fixpoint split_from (word : string) (s : string) : list string :=
  match s with
  | EmptyString =>
      match word with EmptyString => [] | _ => [word] end
  | String c s' =>
      if py_isspace c then
        match word with
        | EmptyString => split_from EmptyString s'
        | _ => word :: split_from EmptyString s'
        end
      else split_from (word +:+ String c EmptyString) s'
  end.

Definition split (s : string) : list string := split_from EmptyString s.

(** [st.startswith(p)] *)
Definition startswith (st p : string) : bool := String.prefix p st.

Definition dquote : string := String "034"%char EmptyString.

(** [html.escape(s)], with its default [quote=True]. *)
Definition escape_char (c : ascii) : string :=
  if (c =? "&")%char then "&amp;"
  else if (c =? "<")%char then "&lt;"
  else if (c =? ">")%char then "&gt;"
  else if (c =? "034")%char then "&quot;"
  else if (c =? "'")%char then "&#x27;"
  else String c EmptyString.

Fixpoint html_escape (s : string) : string :=
  match s with
  | EmptyString => EmptyString
  | String c s' => escape_char c +:+ html_escape s'
  end.

(** [template.format(classes, text)] *)
Definition template (classes text : string) : string :=
  "<span class=" +:+ dquote +:+ classes +:+ dquote +:+ ">" +:+ text +:+ "</span>".

Definition AttributeError : exn :=
  OtherException "AttributeError" "object has no attribute".

Section Html.

(** [pygments.token.STANDARD_TYPES], a table of the Pygments library. *)
Variable STANDARD_TYPES : Token -> option string.

(** [_pygments_css_class(token)]; the argument is the token's path read
    from the leaf, so that [token.parent] is its tail. The parent of the
    root is [None], which has no [parent] attribute. *)
Fixpoint _pygments_css_class (rev_token : list string) : Res string :=
  match STANDARD_TYPES (rev rev_token) with
  | Some css => Ok css
  | None =>
      match rev_token with
      | [] => Raise AttributeError
      | _ :: parent => _pygments_css_class parent
      end
  end.

(** The inner [for st in style.split()] loop, from the empty [classes]. *)
Definition freeform_classes (style : string) : list string :=
  foldl (fun classes st =>
           if startswith st "class:"
           then classes ++ [html_escape (slice st 6 (String.length st))]
           else classes)
    [] (split style).

(** The [classes] list of one fragment. *)
Definition fragment_classes (pygments_styles : bool) (style : StyleTag)
  : Res (list string) :=
  if pygments_styles then
    match style with
    | StyleTok tok =>
        match _pygments_css_class (rev tok) with
        | Ok css => Ok [css]
        | Raise err => Raise err
        | OutOfFuel => OutOfFuel
        end
    | StyleStr _ => Raise AttributeError
    end
  else
    match style with
    | StyleStr st => Ok (freeform_classes st)
    | StyleTok _ => Raise AttributeError
    end.

(** The tag appended for one fragment: [if classes and classes[0]]. *)
Definition fragment_tag (classes : list string) (text : string) : string :=
  match classes with
  | String _ _ :: _ => template (String.concat " " classes) (html_escape text)
  | _ => html_escape text
  end.

(** The outer [for style, text in fragments] loop; [tags] is the list
    built so far. *)
Fixpoint html_tags (pygments_styles : bool) (fragments : FormattedText)
    (tags : list string) : Res (list string) :=
  match fragments with
  | [] => Ok tags
  | (style, text) :: rest =>
      match fragment_classes pygments_styles style with
      | Ok classes =>
          html_tags pygments_styles rest (tags ++ [fragment_tag classes text])
      | Raise err => Raise err
      | OutOfFuel => OutOfFuel
      end
  end.

Definition highlight_html {G : Type} (fuel : nat) (g : Grammar G) (g0 : G)
    (pygments_styles : bool) (s : string) : Res string :=
  match _highlight fuel g g0 pygments_styles s with
  | Ok fragments =>
      match html_tags pygments_styles fragments
              ["<span class=" +:+ dquote +:+ "highlight" +:+ dquote +:+ ">"] with
      | Ok tags => Ok (join_all (tags ++ ["</span>"]))
      | Raise err => Raise err
      | OutOfFuel => OutOfFuel
      end
  | Raise err => Raise err
  | OutOfFuel => OutOfFuel
  end.

End Html.

(** ** [Locator] and [PPHighlighter.styler]

    A pyparsing [ParserElement], as far as [Locator] and [styler] touch it:
    its skip rule [preParse], its [parseImpl], and its list of parse
    actions.  Parsing reports the runs of [styler]'s action it made.  The
    skip rule is plain skipping (whitespace, as in a fresh [Locator]): it
    returns an offset, never fails and runs no action.  A parser with ignore
    expressions, whose skip can run parse actions and fail, is a [Grammar]
    but not a [ParserElement]. *)

Inductive Tok : Type :=
| TokStr (t : string)
| TokInt (n : nat).

Definition Parsed (A : Type) : Type := list ActionCall * (exn + A).

(** A parse action [fn(s, loc, toks)]; it returns the token list it leaves. *)
Definition ParseAction : Type := string -> nat -> list Tok -> Parsed (list Tok).

Record ParserElement : Type := MkElement {
  pe_preParse : string -> nat -> nat;
  (* parseImpl(instring, loc, doActions) *)
  pe_parseImpl : string -> nat -> bool -> Parsed (nat * list Tok);
  pe_parseAction : list ParseAction
}.

(** pyparsing catches an [IndexError] that a parse action raises and raises
    a [ParseException] in its place. *)
Definition parse_action_error (err : exn) : exn :=
  match err with
  | ParseBaseException => ParseBaseException
  | OtherException kind msg =>
      if String.eqb kind "IndexError" then ParseBaseException
      else OtherException kind msg
  end.

Fixpoint run_parse_actions (fns : list ParseAction) (s : string) (loc : nat)
    (toks : list Tok) : Parsed (list Tok) :=
  match fns with
  | [] => ([], inr toks)
  | fn :: fns' =>
      match fn s loc toks with
      | (calls, inl err) => (calls, inl (parse_action_error err))
      | (calls, inr toks') =>
          let '(calls', r) := run_parse_actions fns' s loc toks' in
          (calls ++ calls', r)
      end
  end.

(** pyparsing's calling convention [elem._parse(instring, loc, doActions,
    callPreParse)]: skip first only when [callPreParse] is set, then
    [parseImpl] at the location reached, then (when [doActions] is set) the
    parse actions, called with that location.  The elements covered are
    those with pyparsing's default flags: [callPreparse] set (so that
    [pe_preParse] is the skip the element does when asked to),
    [callDuringTry] unset (as [setParseAction] leaves it), and a
    [parseImpl] that reports through [ParseException] rather than a bare
    [IndexError]. *)
Definition element_parse (elem : ParserElement) (s : string) (loc : nat)
    (doActions callPreParse : bool) : Parsed (nat * list Tok) :=
  let preloc := if callPreParse then pe_preParse elem s loc else loc in
  match pe_parseImpl elem s preloc doActions with
  | (calls, inl err) => (calls, inl err)
  | (calls, inr (end_loc, toks)) =>
      if doActions then
        match run_parse_actions (pe_parseAction elem) s preloc toks with
        | (calls', inl err) => (calls ++ calls', inl err)
        | (calls', inr toks') => (calls ++ calls', inr (end_loc, toks'))
        end
      else (calls, inr (end_loc, toks))
  end.

(** Where a parse ended, if it succeeded. *)
Definition accepted {A : Type} (r : Parsed (nat * A)) : option nat :=
  match snd r with
  | inl _ => None
  | inr (end_loc, _) => Some end_loc
  end.

(** [toks.pop()] *)
Definition pop (toks : list Tok) : option (list Tok * Tok) :=
  match rev toks with
  | [] => None
  | t :: rest => Some (rev rest, t)
  end.

Definition TypeError : exn :=
  OtherException "TypeError" "slice indices must be integers".

(** The closure [action] of [styler]: one run of it on [(s, loc, toks)]. *)
Definition styler_action (style : StyleTag) : ParseAction :=
  fun s loc toks =>
    match pop toks with
    | None => ([], inl IndexError)
    | Some (toks', TokInt end_loc) => ([MkActionCall style loc end_loc], inr toks')
    | Some (_, TokStr _) => ([], inl TypeError)
    end.

Section Locator.

(** The skip rule a fresh [Locator] inherits from [pp.ParserElement]. *)
Variable locator_preParse : string -> nat -> nat.

(** [Locator.parseImpl] *)
Definition Locator_parseImpl (expr : ParserElement) (s : string) (loc : nat)
    (doActions : bool) : Parsed (nat * list Tok) :=
  match element_parse expr s loc doActions false with
  | (calls, inl err) => (calls, inl err)
  | (calls, inr (end_loc, toks)) =>
      (calls, inr (end_loc, toks ++ [TokInt end_loc]))
  end.

Definition Locator (expr : ParserElement) : ParserElement :=
  MkElement locator_preParse (Locator_parseImpl expr) [].

(** [elem.setParseAction(fn)] *)
Definition setParseAction (elem : ParserElement) (fn : ParseAction)
  : ParserElement :=
  MkElement (pe_preParse elem) (pe_parseImpl elem) [fn].

(** [PPHighlighter.styler] *)
Definition styler (style : StyleTag) (expr : ParserElement) : ParserElement :=
  setParseAction (Locator expr) (styler_action style).

End Locator.

(** The grammar that [_scan_string] sees when [self._parser] is [elem], a
    parser without ignore expressions: its [preParse] only skips. *)
Definition grammar_of (elem : ParserElement) : Grammar unit :=
  MkGrammar unit
    (fun _ s loc => (tt, [], inr (pe_preParse elem s loc)))
    (fun _ s preloc =>
       match element_parse elem s preloc true false with
       | (calls, inl err) => (tt, calls, inl err)
       | (calls, inr (nextloc, _)) => (tt, calls, inr nextloc)
       end).

(** ** Example rules

    Small models of the pyparsing rules used in the examples below. *)

(** pyparsing's default skip rule: step over blanks, tabs, newlines and
    carriage returns. *)
Definition is_default_white (c : ascii) : bool :=
  let n := nat_of_ascii c in
  (n =? 32) || (n =? 10) || (n =? 9) || (n =? 13).

(** The number of leading characters of [s] that satisfy [p]. *)
Fixpoint leading (p : ascii -> bool) (s : string) : nat :=
  match s with
  | String c s' => if p c then S (leading p s') else 0
  | EmptyString => 0
  end.

Definition default_preParse (s : string) (loc : nat) : nat :=
  loc + leading is_default_white (slice s loc (String.length s)).

(** [elem.leaveWhitespace()]: the same rule with no skipping. *)
Definition leaveWhitespace (elem : ParserElement) : ParserElement :=
  MkElement (fun _ loc => loc) (pe_parseImpl elem) (pe_parseAction elem).

(** [pp.Literal(m)] *)
Definition Literal (m : string) : ParserElement :=
  MkElement default_preParse
    (fun s loc _ =>
       if String.eqb (slice s loc (loc + String.length m)) m
       then ([], inr (loc + String.length m, [TokStr m]))
       else ([], inl ParseBaseException))
    [].

(** [pp.Word(chars)]: the longest run of characters of [chars], at least one. *)
Definition Word (chars : ascii -> bool) : ParserElement :=
  MkElement default_preParse
    (fun s loc _ =>
       match leading chars (slice s loc (String.length s)) with
       | 0 => ([], inl ParseBaseException)
       | S n => ([], inr (loc + S n, [TokStr (slice s loc (loc + S n))]))
       end)
    [].

(** [pp.nums] *)
Definition nums (c : ascii) : bool :=
  let n := nat_of_ascii c in (48 <=? n) && (n <=? 57).

(** [pp.Empty()] *)
Definition Empty : ParserElement :=
  MkElement default_preParse (fun _ loc _ => ([], inr (loc, []))) [].

(** [first + second], pyparsing's [And] of two rules: the first is parsed
    where [And] itself stopped skipping, the second skips for itself. *)
Definition And (first second : ParserElement) : ParserElement :=
  MkElement default_preParse
    (fun s loc doActions =>
       match element_parse first s loc doActions false with
       | (calls1, inl err) => (calls1, inl err)
       | (calls1, inr (loc1, toks1)) =>
           match element_parse second s loc1 doActions true with
           | (calls2, inl err) => (calls1 ++ calls2, inl err)
           | (calls2, inr (loc2, toks2)) =>
               (calls1 ++ calls2, inr (loc2, toks1 ++ toks2))
           end
       end)
    [].

(** ** Example grammars

    Each is a grammar a caller can build with pyparsing and [styler]; the
    comment gives the expression, the definition what its two operations do. *)

Definition skip_nothing : unit -> string -> nat -> Outcome unit :=
  fun _ _ loc => (tt, [], inr loc).

Definition no_match : Outcome unit := (tt, [], inl ParseBaseException).

(** A grammar that never matches and styles nothing, such as [pp.NoMatch()]. *)
Definition never_grammar : Grammar unit :=
  MkGrammar unit skip_nothing (fun _ _ _ => no_match).

(** [styler('class:outer', pp.Literal('a') + (styler('class:inner',
    pp.Literal('b')) + pp.Literal('c')))]: a styled rule inside a styled
    rule, the inner one starting one character later. *)
Definition nested_rule : ParserElement :=
  styler default_preParse (StyleStr "class:outer")
    (And (Literal "a")
       (And (styler default_preParse (StyleStr "class:inner") (Literal "b"))
          (Literal "c"))).

Definition nested_grammar : Grammar unit := grammar_of nested_rule.

(** [styler('class:e', pp.Empty())]: succeeds everywhere without consuming
    anything, so its action records an empty text. *)
Definition empty_rule : ParserElement :=
  styler default_preParse (StyleStr "class:e") Empty.

Definition empty_grammar : Grammar unit := grammar_of empty_rule.

(** [styler('class:int', pp.Word(pp.nums))]: styles every run of digits, as
    the parser of the class docstring does. *)
Definition integer_rule : ParserElement :=
  styler default_preParse (StyleStr "class:int") (Word nums).

Definition integer_grammar : Grammar unit := grammar_of integer_rule.

(** A grammar whose skip rule works at offset 0 and faults at every later
    offset (an ignore expression whose own parse action raises, for
    instance), and that matches nothing. *)
Definition late_skip_fault_grammar : Grammar unit :=
  MkGrammar unit
    (fun _ _ loc =>
       if loc =? 0 then (tt, [], inr 0)
       else (tt, [], inl (OtherException "ZeroDivisionError" "division by zero")))
    (fun _ _ _ => no_match).

(** A grammar whose skip rule faults at every offset, the first included:
    [pp.Literal('x').ignore(pp.Empty().setParseAction(lambda s, l, t: 1/0))],
    whose ignore expression matches everywhere and whose action raises. *)
Definition skip_fault_grammar : Grammar unit :=
  MkGrammar unit
    (fun _ _ _ =>
       (tt, [], inl (OtherException "ZeroDivisionError" "division by zero")))
    (fun _ _ _ => no_match).

(** A grammar whose skip rule always answers offset 0 (a [preParse] override
    that rewinds), and that matches nothing. *)
Definition rewinding_grammar : Grammar unit :=
  MkGrammar unit (fun _ _ _ => (tt, [], inr 0)) (fun _ _ _ => no_match).

(** The same with a Pygments token: [styler(Token.Name, pp.Literal('a'))]. *)
Definition token_rule : ParserElement :=
  styler default_preParse (StyleTok ["Name"]) (Literal "a").

Definition token_grammar : Grammar unit := grammar_of token_rule.

(** A rule that styles the letter [a]: [styler('class:a', pp.Literal('a'))]. *)
Definition letter_rule : ParserElement :=
  styler default_preParse (StyleStr "class:a") (Literal "a").

Definition letter_grammar : Grammar unit := grammar_of letter_rule.

(** A grammar whose match attempt raises [ValueError] at every offset (a
    user parse action that fails, for instance). *)
Definition faulty_grammar : Grammar unit :=
  MkGrammar unit skip_nothing
    (fun _ _ _ => (tt, [], inl (OtherException "ValueError" "bad value"))).

(** ** Vocabulary of the statements *)

#[global] Instance StyleTag_eq_dec : EqDecision StyleTag.
Proof. solve_decision. Defined.

(** The captures of a table are separated on [s] when every capture that
    starts inside [s] has a non-empty text and no other capture starts
    strictly inside its span. *)
Definition separated (s : string) (_fragments : gmap nat Fragment) : Prop :=
  map_Forall
    (fun k (fragment : Fragment) =>
       k < String.length s ->
       snd fragment <> EmptyString /\
       Forall (fun k' => _fragments !! k' = None)
         (seq (S k) (String.length (snd fragment) - 1)))
    _fragments.

#[global] Instance separated_dec s F : Decision (separated s F).
Proof. unfold separated. apply _. Defined.

(** Every stored text is a slice of [s] that starts at its key. *)
Definition captured_from (s : string) (_fragments : gmap nat Fragment) : Prop :=
  forall k style text,
    _fragments !! k = Some (style, text) -> exists e, text = slice s k e.

(** The offsets of the fragments of a sequence: each one starts where the
    texts before it end. *)
Fixpoint spans_from (start : nat) (fragments : FormattedText)
  : list (nat * nat) :=
  match fragments with
  | [] => []
  | (_, text) :: rest =>
      (start, start + String.length text)
        :: spans_from (start + String.length text) rest
  end.

Definition spans (fragments : FormattedText) : list (nat * nat) :=
  spans_from 0 fragments.

(** The free-form class names of a style string, in the words of the
    specification: split on whitespace, keep the tokens of the form
    [class:<name>], take [<name>] as it stands. *)
Definition class_names (style : string) : list string :=
  map (fun st => slice st 6 (String.length st))
    (List.filter (fun st => startswith st "class:") (split style)).

(** The tag of one fragment as the specification words it: a [span] when at
    least one class name is non-empty, the bare escaped text otherwise. *)
Definition specified_tag (style text : string) : string :=
  if existsb (fun name => negb (String.eqb name EmptyString)) (class_names style)
  then template (String.concat " " (class_names style)) (html_escape text)
  else html_escape text.

(** The style of a fragment is a Pygments token. *)
Definition is_token_style (fragment : Fragment) : Prop :=
  match fst fragment with StyleTok _ => True | StyleStr _ => False end.

#[global] Instance is_token_style_dec fragment : Decision (is_token_style fragment).
Proof. unfold is_token_style. destruct (fst fragment); apply _. Defined.

(** The captures fit the style mode: with Pygments styles on, every capture
    that starts inside [s] carries a Pygments token. *)
Definition styles_fit (pygments_styles : bool) (s : string)
    (_fragments : gmap nat Fragment) : Prop :=
  pygments_styles = true ->
  map_Forall
    (fun k (fragment : Fragment) =>
       k < String.length s -> is_token_style fragment)
    _fragments.

#[global] Instance styles_fit_dec pygments_styles s F :
  Decision (styles_fit pygments_styles s F).
Proof. unfold styles_fit. apply _. Defined.

(** What [to_formatted_text] returns when it returns. *)
Definition shown (pygments_display : StyleTag -> StyleTag)
    (fragments : FormattedText) : FormattedText :=
  map (fun f => (pygments_display (fst f), snd f)) fragments.

(** The skip rule never fails and never moves the cursor back. *)
Definition skip_advances {G : Type} (g : Grammar G) (s : string) : Prop :=
  forall gs loc, exists gs' calls preloc,
    preParse g gs s loc = (gs', calls, inr preloc) /\ loc <= preloc.

(** The grammar raises nothing but its own no-match signal. *)
Definition only_no_match {G : Type} (g : Grammar G) (s : string) : Prop :=
  forall gs loc kind msg,
    snd (preParse g gs s loc) <> inl (OtherException kind msg) /\
    snd (_parse g gs s loc) <> inl (OtherException kind msg).

(** The last run of the action at location [k] among [calls], if any. *)
Definition last_call (k : nat) (calls : list ActionCall) : option ActionCall :=
  last (List.filter (fun c => ac_loc c =? k) calls).

(** Every capture that starts inside [s] has a non-empty text. *)
Definition nonempty_captures (s : string) (_fragments : gmap nat Fragment)
  : Prop :=
  map_Forall
    (fun k (fragment : Fragment) =>
       k < String.length s -> snd fragment <> EmptyString)
    _fragments.

#[global] Instance nonempty_captures_dec s F : Decision (nonempty_captures s F).
Proof. unfold nonempty_captures. apply _. Defined.


(** Two scan states that differ only in that the second table also holds
    the entries of [F0] under the keys the first does not have. *)
Definition overlaid {G : Type} (F0 : gmap nat Fragment) (st st' : ScanState G)
  : Prop :=
  st' = MkScan (sc_loc st) (sc_preloc st) (sc_fragments st ∪ F0)
          (sc_grammar st) (sc_warnings st) (sc_iterations st).

(** The token [k] levels above [tok]: [tok] itself for 0, its parent for 1,
    the root [Token] from [length tok] on. *)
Definition ancestor (k : nat) (tok : Token) : Token :=
  take (length tok - k) tok.

(** A few rows of [STANDARD_TYPES]: [Token], [Token.Text], [Token.Name] and
    [Token.Name.Function]. *)
Definition example_types (tok : Token) : option string :=
  match tok with
  | [] => Some EmptyString
  | [name] =>
      if String.eqb name "Text" then Some EmptyString
      else if String.eqb name "Name" then Some "n"
      else None
  | [name; sub] =>
      if String.eqb name "Name" && String.eqb sub "Function" then Some "nf"
      else None
  | _ => None
  end.

(** The characters HTML markup is made of: [<], [>] and the two quotes. *)
Definition is_markup (c : ascii) : bool :=
  (c =? "<")%char || (c =? ">")%char || (c =? "034")%char || (c =? "'")%char.

(** No character of [s] is a markup character. *)
Fixpoint markup_free (s : string) : bool :=
  match s with
  | EmptyString => true
  | String c s' => negb (is_markup c) && markup_free s'
  end.

(** The tag of one fragment in free-form mode. *)
Definition freeform_tag (fragment : Fragment) : string :=
  match fst fragment with
  | StyleStr style => fragment_tag (freeform_classes style) (snd fragment)
  | StyleTok _ => EmptyString
  end.

Definition is_string_style (fragment : Fragment) : Prop :=
  match fst fragment with StyleStr _ => True | StyleTok _ => False end.

(** The opening tag of the enclosing [span]. *)
Definition highlight_open : string :=
  "<span class=" +:+ dquote +:+ "highlight" +:+ dquote +:+ ">".

(** * Properties *)

(** ** Strings *)

Lemma substring_length (s : string) : forall n m,
  String.length (substring n m s) = Nat.min m (String.length s - n).
Proof.
  induction s as [|c s IH]; intros [|n] [|m]; simpl; try reflexivity.
  - rewrite IH. simpl. rewrite Nat.sub_0_r. reflexivity.
  - apply IH.
  - apply IH.
Qed.

Lemma append_String (c : ascii) (s1 s2 : string) :
  String c s1 +:+ s2 = String c (s1 +:+ s2).
Proof. reflexivity. Qed.

Lemma substring_append (s : string) : forall n m k,
  substring n m s +:+ substring (n + m) k s = substring n (m + k) s.
Proof.
  induction s as [|c s IH]; intros n m k.
  - destruct n, m, k; reflexivity.
  - destruct n as [|n].
    + destruct m as [|m]; cbn.
      * reflexivity.
      * rewrite append_String. f_equal. apply (IH 0 m k).
    + cbn. apply IH.
Qed.

Lemma substring_past (s : string) : forall n m,
  String.length s <= n -> substring n m s = EmptyString.
Proof.
  induction s as [|c s IH]; intros n m Hn.
  - destruct n, m; reflexivity.
  - destruct n as [|n]; simpl in *; [lia|]. apply IH. lia.
Qed.

Lemma substring_clamp (s : string) : forall n m,
  String.length s - n <= m ->
  substring n m s = substring n (String.length s - n) s.
Proof.
  induction s as [|c s IH]; intros n m Hm.
  - destruct n, m; reflexivity.
  - destruct n as [|n]; simpl in *.
    + destruct m as [|m]; [lia|]. f_equal.
      rewrite (IH 0 m) by lia. rewrite Nat.sub_0_r. reflexivity.
    + apply IH. lia.
Qed.

Lemma substring_zero (s : string) : forall n, substring n 0 s = EmptyString.
Proof.
  induction s as [|c s IH]; intros [|n]; simpl; try reflexivity. apply IH.
Qed.

Lemma substring_whole (s : string) : substring 0 (String.length s) s = s.
Proof. induction s as [|c s IH]; simpl; [reflexivity | f_equal; exact IH]. Qed.

Lemma string_length_append (s1 s2 : string) :
  String.length (s1 +:+ s2) = String.length s1 + String.length s2.
Proof.
  induction s1 as [|c s1 IH]; [reflexivity|].
  rewrite append_String. simpl. rewrite IH. reflexivity.
Qed.

Lemma string_append_empty_r (s : string) : s +:+ EmptyString = s.
Proof.
  induction s as [|c s IH]; [reflexivity|].
  rewrite append_String. f_equal. exact IH.
Qed.

Lemma string_append_assoc (s1 s2 s3 : string) :
  (s1 +:+ s2) +:+ s3 = s1 +:+ (s2 +:+ s3).
Proof.
  induction s1 as [|c s1 IH]; [reflexivity|].
  rewrite !append_String. f_equal. exact IH.
Qed.

Lemma slice_length (s : string) (a b : nat) :
  String.length (slice s a b) = Nat.min b (String.length s) - a.
Proof. unfold slice. rewrite substring_length. lia. Qed.

Lemma slice_whole (s : string) : slice s 0 (String.length s) = s.
Proof. unfold slice. rewrite Nat.sub_0_r. apply substring_whole. Qed.

Lemma slice_empty (s : string) (a b : nat) :
  b <= a \/ String.length s <= a -> slice s a b = EmptyString.
Proof.
  unfold slice. intros [H|H].
  - replace (b - a) with 0 by lia. apply substring_zero.
  - apply substring_past. exact H.
Qed.

Lemma slice_clamp (s : string) (a b : nat) :
  String.length s <= b -> slice s a b = slice s a (String.length s).
Proof. unfold slice. intros H. apply substring_clamp. lia. Qed.

(** Cutting a tail of [s] in two at any later offset. *)
Lemma slice_split (s : string) (a b : nat) :
  a <= b ->
  slice s a b +:+ slice s b (String.length s) = slice s a (String.length s).
Proof.
  intros Hab. destruct (le_lt_dec (String.length s) b) as [Hb|Hb].
  - rewrite (slice_empty s b) by (right; exact Hb).
    rewrite string_append_empty_r. apply slice_clamp. exact Hb.
  - unfold slice.
    replace (String.length s - a) with ((b - a) + (String.length s - b)) by lia.
    rewrite <- substring_append. do 2 f_equal. lia.
Qed.

Lemma join_all_cons (x : string) (l : list string) :
  join_all (x :: l) = x +:+ join_all l.
Proof.
  unfold join_all. destruct l as [|y l]; simpl.
  - symmetry. apply string_append_empty_r.
  - reflexivity.
Qed.

Lemma join_all_app (l1 l2 : list string) :
  join_all (l1 ++ l2) = join_all l1 +:+ join_all l2.
Proof.
  induction l1 as [|x l1 IH].
  - reflexivity.
  - rewrite <- app_comm_cons, !join_all_cons, IH.
    symmetry. apply string_append_assoc.
Qed.

(** ** The scan loop *)

Lemma empty_captured (s : string) : captured_from s ∅.
Proof. intros k style text H. rewrite lookup_empty in H. discriminate. Qed.

Lemma action_captured (s : string) (F : gmap nat Fragment) (c : ActionCall) :
  captured_from s F -> captured_from s (action s F c).
Proof.
  intros HF k style text. unfold action.
  destruct (decide (ac_loc c = k)) as [->|Hne].
  - rewrite lookup_insert_eq. intros [= _ <-]. eauto.
  - rewrite lookup_insert_ne by exact Hne. apply HF.
Qed.

Lemma run_actions_captured (s : string) (calls : list ActionCall) :
  forall F, captured_from s F -> captured_from s (run_actions s F calls).
Proof.
  unfold run_actions. induction calls as [|c calls IH]; intros F HF; simpl.
  - exact HF.
  - apply IH, action_captured, HF.
Qed.

Lemma except_branch_inl {G : Type} (err : exn) (st st' : ScanState G) :
  except_branch err st = inl st' ->
  exists preloc,
    sc_preloc st = Some preloc /\
    sc_loc st' = preloc + 1 /\
    sc_preloc st' = Some preloc /\
    sc_fragments st' = sc_fragments st /\
    sc_iterations st' = sc_iterations st.
Proof.
  unfold except_branch. destruct (sc_preloc st) as [preloc|]; [|discriminate].
  intros [= <-]. exists preloc. simpl. auto.
Qed.

Ltac case_iteration g st :=
  unfold scan_iteration;
  destruct (preParse g (sc_grammar st) _ (sc_loc st)) as [[?g1 ?calls1] [?err|?preloc]];
  [| destruct (_parse g _ _ _) as [[?g2 ?calls2] [?err|?nextloc]]].

Lemma scan_iteration_captured {G : Type} (g : Grammar G) (s : string)
    (st st' : ScanState G) :
  captured_from s (sc_fragments st) ->
  scan_iteration g s st = inl st' ->
  captured_from s (sc_fragments st').
Proof.
  intros HF. case_iteration g st; intros H.
  - apply except_branch_inl in H as (_ & _ & _ & _ & -> & _). simpl.
    apply run_actions_captured, HF.
  - apply except_branch_inl in H as (_ & _ & _ & _ & -> & _). simpl.
    apply run_actions_captured, run_actions_captured, HF.
  - injection H as <-. simpl.
    apply run_actions_captured, run_actions_captured, HF.
Qed.

Lemma scan_loop_captured {G : Type} (g : Grammar G) (s : string) (fuel : nat) :
  forall st st' : ScanState G,
    captured_from s (sc_fragments st) ->
    scan_loop fuel g s st = Ok st' ->
    captured_from s (sc_fragments st').
Proof.
  induction fuel as [|fuel IH]; intros st st' HF; simpl;
    destruct (sc_loc st <=? String.length s); try discriminate;
    try (intros [= <-]; exact HF).
  destruct (scan_iteration g s st) as [st1|err] eqn:Hit; [|discriminate].
  apply IH. eapply scan_iteration_captured; eassumption.
Qed.

(** Once [preloc] has been assigned, no iteration re-raises. *)
Lemma scan_iteration_assigned {G : Type} (g : Grammar G) (s : string)
    (st : ScanState G) :
  sc_preloc st <> None ->
  exists st', scan_iteration g s st = inl st' /\ sc_preloc st' <> None.
Proof.
  intros Hp. destruct (sc_preloc st) as [p|] eqn:Hst; [|contradiction].
  case_iteration g st; unfold except_branch; simpl; try rewrite Hst;
    eexists; (split; [reflexivity|]); simpl; try rewrite Hst; discriminate.
Qed.

Lemma scan_loop_no_raise {G : Type} (g : Grammar G) (s : string) (fuel : nat) :
  forall (st : ScanState G) (err : exn),
    sc_preloc st <> None -> scan_loop fuel g s st <> Raise err.
Proof.
  induction fuel as [|fuel IH]; intros st err Hp; simpl;
    destruct (sc_loc st <=? String.length s); try discriminate.
  destruct (scan_iteration_assigned g s st Hp) as (st' & -> & Hp').
  apply IH, Hp'.
Qed.

(** A scan that finished within a bound finishes the same way within any
    larger one. *)
Lemma scan_loop_more_fuel {G : Type} (g : Grammar G) (s : string) (fuel : nat) :
  forall (fuel' : nat) (st st' : ScanState G),
    fuel <= fuel' ->
    scan_loop fuel g s st = Ok st' -> scan_loop fuel' g s st = Ok st'.
Proof.
  induction fuel as [|fuel IH]; intros fuel' st st' Hle; simpl;
    destruct fuel' as [|fuel']; simpl;
    destruct (sc_loc st <=? String.length s); try discriminate; try lia;
    try (intros H; exact H).
  destruct (scan_iteration g s st) as [st1|err]; [|discriminate].
  apply IH. lia.
Qed.

(** Under a skip rule that advances, an iteration moves the cursor forward. *)
Lemma scan_iteration_advances {G : Type} (g : Grammar G) (s : string)
    (st : ScanState G) :
  skip_advances g s ->
  exists st',
    scan_iteration g s st = inl st' /\
    sc_loc st < sc_loc st' /\
    sc_iterations st' = S (sc_iterations st).
Proof.
  intros Hskip.
  destruct (Hskip (sc_grammar st) (sc_loc st)) as (g1 & calls1 & preloc & Hpre & Hle).
  unfold scan_iteration. rewrite Hpre.
  destruct (_parse g g1 s preloc) as [[g2 calls2] [err|nextloc]];
    unfold except_branch; simpl.
  - eexists. split; [reflexivity|]. simpl. split; [lia | reflexivity].
  - eexists. split; [reflexivity|]. simpl. split; [|reflexivity].
    destruct (sc_loc st <? nextloc) eqn:Hlt.
    + apply Nat.ltb_lt in Hlt. exact Hlt.
    + lia.
Qed.

Lemma scan_loop_terminates {G : Type} (g : Grammar G) (s : string) :
  skip_advances g s ->
  forall (fuel : nat) (st : ScanState G),
    S (String.length s) - sc_loc st <= fuel ->
    exists st',
      scan_loop fuel g s st = Ok st' /\
      sc_iterations st' <= sc_iterations st + (S (String.length s) - sc_loc st).
Proof.
  intros Hskip. induction fuel as [|fuel IH]; intros st Hfuel; simpl;
    destruct (sc_loc st <=? String.length s) eqn:Hloop;
    try (apply Nat.leb_le in Hloop; lia);
    try (exists st; split; [reflexivity | lia]).
  apply Nat.leb_le in Hloop.
  destruct (scan_iteration_advances g s st Hskip) as (st1 & -> & Hlt & Hit).
  destruct (IH st1) as (st' & Hrun & Hcount); [lia|].
  exists st'. split; [exact Hrun | lia].
Qed.

(** C3, as amended. For a grammar whose skip rule never fails and never
    returns an offset before the cursor, and for every behaviour of its
    match attempts (success, zero-width success, no-match, fault): each
    iteration of the scan loop moves the cursor strictly forward, and the
    scan of a text of length L ends after at most L + 1 iterations. *)
Theorem scan_terminates_linear {G : Type} (g : Grammar G) (s : string) :
  skip_advances g s ->
  (forall st : ScanState G,
      exists st', scan_iteration g s st = inl st' /\ sc_loc st < sc_loc st') /\
  (forall (g0 : G) (F : gmap nat Fragment),
      exists st',
        _scan_string (S (String.length s)) g g0 s F = Ok st' /\
        sc_iterations st' <= S (String.length s)).
Proof.
  intros Hskip. split.
  - intros st.
    destruct (scan_iteration_advances g s st Hskip) as (st' & Hit & Hlt & _).
    exists st'. split; assumption.
  - intros g0 F. unfold _scan_string.
    destruct (scan_loop_terminates g s Hskip (S (String.length s)) (scan_init g0 F))
      as (st' & Hrun & Hcount); [simpl; lia|].
    exists st'. split; [exact Hrun | simpl in Hcount; lia].
Qed.

Lemma scan_terminates_linear_witness :
  exists st',
    _scan_string 4 letter_grammar tt "a b" ∅ = Ok st' /\ sc_iterations st' <= 4.
Proof.
  apply (proj2 (scan_terminates_linear letter_grammar "a b"
    (fun gs loc =>
       ex_intro _ tt (ex_intro _ [] (ex_intro _ (default_preParse "a b" loc)
         (conj eq_refl (Nat.le_add_r loc _))))))).
Defined.

Lemma rewinding_scan_stuck (fuel : nat) :
  forall st : ScanState unit,
    sc_loc st <= 1 -> scan_loop fuel rewinding_grammar "ab" st = OutOfFuel.
Proof.
  induction fuel as [|fuel IH]; intros st Hloc; simpl;
    destruct (sc_loc st <=? 2) eqn:Hloop;
    try reflexivity; try (apply Nat.leb_gt in Hloop; lia).
  unfold scan_iteration, except_branch. simpl. apply IH. simpl. lia.
Qed.

(** C3, as stated, fails: with a skip rule that answers an offset before the
    cursor, the second iteration leaves the cursor where it was, and the scan
    of a two-character text never ends. *)
Lemma scan_cursor_can_stall :
  exists st1 st2 : ScanState unit,
    scan_iteration rewinding_grammar "ab" (scan_init tt ∅) = inl st1 /\
    scan_iteration rewinding_grammar "ab" st1 = inl st2 /\
    sc_loc st1 = 1 /\ sc_loc st2 = 1 /\
    forall fuel, _scan_string fuel rewinding_grammar tt "ab" ∅ = OutOfFuel.
Proof.
  eexists _, _. split; [reflexivity|]. split; [reflexivity|].
  split; [reflexivity|]. split; [reflexivity|].
  intros fuel. apply rewinding_scan_stuck. simpl. lia.
Qed.

(** A failure of the skip rule in the first iteration reaches the caller. *)
Lemma first_skip_fault_propagates {G : Type}
    (pygments_display : StyleTag -> StyleTag) (g : Grammar G) (g0 g1 : G)
    (calls : list ActionCall) (err : exn) (pygments_styles : bool)
    (s : string) (fuel : nat) :
  preParse g g0 s 0 = (g1, calls, inl err) ->
  highlight pygments_display (S fuel) g g0 pygments_styles s = Raise err.
Proof.
  intros Hpre. unfold highlight, _highlight, _scan_string. simpl.
  unfold scan_iteration. simpl. rewrite Hpre. reflexivity.
Qed.

Lemma late_skip_fault_stuck (fuel : nat) :
  forall st : ScanState unit,
    sc_loc st = 0 \/ (sc_loc st = 1 /\ sc_preloc st = Some 0) ->
    scan_loop fuel late_skip_fault_grammar "ab" st = OutOfFuel.
Proof.
  induction fuel as [|fuel IH]; intros st Hst; simpl;
    destruct (sc_loc st <=? 2) eqn:Hloop;
    try reflexivity; try (apply Nat.leb_gt in Hloop; lia).
  unfold scan_iteration, except_branch. simpl.
  destruct Hst as [H0 | [H1 Hp]].
  - rewrite H0. simpl. apply IH. simpl. right. split; reflexivity.
  - rewrite H1. simpl. rewrite Hp. apply IH. simpl. right. split; reflexivity.
Qed.

(** C5, on the code: when the skip rule fails in the second iteration, the
    failure is caught, the cursor is set from the skip position of the first
    iteration and so stays where it was, and [highlight] never returns or
    raises. *)
Theorem later_skip_fault_is_swallowed :
  exists st1 st2 : ScanState unit,
    scan_iteration late_skip_fault_grammar "ab" (scan_init tt ∅) = inl st1 /\
    snd (preParse late_skip_fault_grammar (sc_grammar st1) "ab" (sc_loc st1))
      = inl (OtherException "ZeroDivisionError" "division by zero") /\
    scan_iteration late_skip_fault_grammar "ab" st1 = inl st2 /\
    sc_loc st2 = sc_loc st1 /\
    forall pygments_display fuel pygments_styles,
      highlight pygments_display fuel late_skip_fault_grammar tt
        pygments_styles "ab" = OutOfFuel.
Proof.
  eexists _, _. split; [reflexivity|]. split; [reflexivity|].
  split; [reflexivity|]. split; [reflexivity|].
  intros pygments_display fuel pygments_styles.
  unfold highlight, _highlight, _scan_string.
  rewrite late_skip_fault_stuck; [reflexivity | left; reflexivity].
Qed.

(** ** The reconstruction loop *)

(** The fragments of the class docstring's example. *)
Example highlight_integers :
  highlight (fun style => style) 8 integer_grammar tt false "1, 2, 3"
  = Ok [(StyleStr "class:int", "1"); (StyleStr EmptyString, ", ");
        (StyleStr "class:int", "2"); (StyleStr EmptyString, ", ");
        (StyleStr "class:int", "3")].
Proof. vm_compute. reflexivity. Qed.

(** The HTML of the same text: every styled run in its own [span]. *)
Example highlight_html_integers :
  highlight_html (fun _ => None) 8 integer_grammar tt false "1, 2, 3"
  = Ok (join_all
          ["<span class=" +:+ dquote +:+ "highlight" +:+ dquote +:+ ">";
           template "int" "1"; ", "; template "int" "2"; ", ";
           template "int" "3"; "</span>"]).
Proof. vm_compute. reflexivity. Qed.

(** C10, as amended. When the skip rule does not fail at offset 0, [highlight('')]
    returns the empty fragment sequence, whatever else the grammar does. *)
Theorem highlight_empty_text {G : Type}
    (pygments_display : StyleTag -> StyleTag) (g : Grammar G) (g0 g1 : G)
    (calls : list ActionCall) (preloc : nat) (pygments_styles : bool)
    (fuel : nat) :
  preParse g g0 EmptyString 0 = (g1, calls, inr preloc) ->
  highlight pygments_display (S fuel) g g0 pygments_styles EmptyString = Ok [].
Proof.
  intros Hpre.
  assert (Hscan : exists st, _scan_string (S fuel) g g0 EmptyString ∅ = Ok st).
  { unfold _scan_string. simpl. unfold scan_iteration. simpl. rewrite Hpre.
    destruct (_parse g g1 EmptyString preloc) as [[g2 calls2] [err|nextloc]];
      unfold except_branch; simpl.
    - destruct fuel; simpl; rewrite Nat.add_1_r; simpl; eauto.
    - destruct nextloc as [|nextloc]; simpl.
      + destruct fuel; simpl; rewrite Nat.add_1_r; simpl; eauto.
      + destruct fuel; simpl; eauto. }
  destruct Hscan as [st Hscan].
  unfold highlight, _highlight. rewrite Hscan.
  unfold reconstruct. simpl. destruct pygments_styles; reflexivity.
Qed.

Lemma highlight_empty_text_witness :
  highlight (fun style => style) 1 letter_grammar tt false EmptyString = Ok [].
Proof.
  apply (highlight_empty_text (fun style => style) letter_grammar tt tt [] 0 false 0).
  reflexivity.
Defined.

(** C7, as amended. For a non-empty text in which the grammar captured
    nothing, [highlight] returns exactly one fragment: the whole text in the
    default style (in its display form when Pygments styles are on). *)
Theorem highlight_no_capture {G : Type}
    (pygments_display : StyleTag -> StyleTag) (g : Grammar G) (g0 : G)
    (pygments_styles : bool) (s : string) (fuel : nat) (st : ScanState G) :
  s <> EmptyString ->
  _scan_string fuel g g0 s ∅ = Ok st ->
  sc_fragments st = ∅ ->
  highlight pygments_display fuel g g0 pygments_styles s
  = Ok [(if pygments_styles
         then pygments_display (default_style true)
         else default_style false, s)].
Proof.
  intros Hs Hscan Hempty.
  unfold highlight, _highlight. rewrite Hscan, Hempty.
  destruct fuel as [|fuel].
  { unfold _scan_string in Hscan. simpl in Hscan. discriminate. }
  unfold reconstruct, sorted_keys. rewrite dom_empty_L, elements_empty.
  destruct s as [|c s]; [contradiction|].
  change (merge_sort Nat.le [] ++ [String.length (String c s)])
    with [String.length (String c s)].
  cbn [gather]. change (0 <? String.length (String c s)) with true. cbv iota.
  rewrite lookup_empty. cbn [lookup list_lookup app].
  assert (Hend : forall dflt acc,
    gather fuel (String c s) ∅ [String.length (String c s)] dflt 0
      (String.length (String c s)) acc = Ok acc).
  { intros dflt acc. destruct fuel; cbn [gather]; rewrite Nat.ltb_irrefl; reflexivity. }
  rewrite Hend. rewrite slice_whole. destruct pygments_styles; reflexivity.
Qed.

Lemma highlight_no_capture_witness :
  highlight (fun style => style) 4 never_grammar tt false "a b"
  = Ok [(StyleStr EmptyString, "a b")].
Proof.
  refine (highlight_no_capture (fun style => style) never_grammar tt false "a b" 4
            _ _ _ _).
  - discriminate.
  - vm_compute. reflexivity.
  - reflexivity.
Defined.

(** C7, as stated, fails on the empty text: nothing is captured, and the
    result has no fragment at all rather than one empty default fragment. *)
Lemma highlight_no_capture_empty_text :
  (exists st, _scan_string 1 never_grammar tt EmptyString ∅ = Ok st /\
              sc_fragments st = ∅) /\
  highlight (fun style => style) 1 never_grammar tt false EmptyString = Ok [] /\
  highlight (fun style => style) 1 never_grammar tt false EmptyString
  <> Ok [(default_style false, EmptyString)].
Proof.
  split; [eexists; split; reflexivity|]. split; [reflexivity | discriminate].
Qed.

(** At a capture with an empty text the loop of [_highlight] appends the
    capture and leaves [loc] unchanged, so no bound on its iterations is
    enough. *)
Lemma gather_zero_width_stuck (s : string) (F : gmap nat Fragment)
    (locs : list nat) (dflt style : StyleTag) (loc : nat) :
  loc < String.length s ->
  F !! loc = Some (style, EmptyString) ->
  forall (fuel i : nat) (acc : FormattedText),
    gather fuel s F locs dflt i loc acc = OutOfFuel.
Proof.
  intros Hloc Hlook. apply Nat.ltb_lt in Hloc.
  induction fuel as [|fuel IH]; intros i acc; cbn [gather]; rewrite Hloc.
  - reflexivity.
  - rewrite Hlook. cbn [snd String.length]. rewrite Nat.add_0_r. apply IH.
Qed.

(** C6, on the code: for [styler('class:e', pp.Empty())] and the text [a]
    the scan ends after two iterations, having recorded an empty capture at
    offset 0, and the reconstruction that follows never ends; [highlight]
    does not return under any bound. *)
Theorem zero_width_capture_hangs :
  (exists st : ScanState unit,
      _scan_string 2 empty_grammar tt "a" ∅ = Ok st /\
      sc_iterations st = 2 /\
      sc_fragments st !! 0 = Some (StyleStr "class:e", EmptyString) /\
      forall fuel pygments_styles,
        reconstruct fuel pygments_styles "a" (sc_fragments st) = OutOfFuel) /\
  forall pygments_display fuel pygments_styles,
    highlight pygments_display fuel empty_grammar tt pygments_styles "a"
    = OutOfFuel.
Proof.
  assert (Hscan : exists st : ScanState unit,
    _scan_string 2 empty_grammar tt "a" ∅ = Ok st /\
    sc_iterations st = 2 /\
    sc_fragments st !! 0 = Some (StyleStr "class:e", EmptyString)).
  { eexists. split; [vm_compute; reflexivity|]. split; reflexivity. }
  destruct Hscan as (st & Hscan & Hit & Hlook).
  assert (Hrec : forall fuel pygments_styles,
    reconstruct fuel pygments_styles "a" (sc_fragments st) = OutOfFuel).
  { intros fuel pygments_styles. unfold reconstruct.
    eapply gather_zero_width_stuck; [simpl; lia | exact Hlook]. }
  split.
  - exists st. auto.
  - intros pygments_display fuel pygments_styles. unfold highlight, _highlight.
    destruct fuel as [|[|fuel]]; [reflexivity | reflexivity |].
    unfold _scan_string in *.
    rewrite (scan_loop_more_fuel empty_grammar "a" 2 (S (S fuel)) _ st);
      [| lia | exact Hscan].
    rewrite Hrec. reflexivity.
Qed.

Lemma sorted_keys_elem_of (F : gmap nat Fragment) (k : nat) :
  k ∈ sorted_keys F <-> is_Some (F !! k).
Proof.
  unfold sorted_keys.
  rewrite merge_sort_Permutation, elem_of_elements, elem_of_dom. reflexivity.
Qed.

Lemma sorted_keys_sorted (F : gmap nat Fragment) :
  StronglySorted Nat.le (sorted_keys F).
Proof. unfold sorted_keys. apply (StronglySorted_merge_sort Nat.le); apply _. Qed.

Lemma sorted_keys_NoDup (F : gmap nat Fragment) : NoDup (sorted_keys F).
Proof.
  unfold sorted_keys. rewrite merge_sort_Permutation. apply NoDup_elements.
Qed.

Lemma slice_then_rest (s : string) (a e : nat) :
  slice s a e +:+ slice s (a + String.length (slice s a e)) (String.length s)
  = slice s a (String.length s).
Proof.
  destruct (le_lt_dec e a) as [Hea|Hea].
  { rewrite (slice_empty s a e) by (left; exact Hea).
    simpl. rewrite Nat.add_0_r. reflexivity. }
  destruct (le_lt_dec (String.length s) a) as [Hla|Hla].
  { rewrite (slice_empty s a e) by (right; exact Hla).
    simpl. rewrite Nat.add_0_r. reflexivity. }
  rewrite slice_length.
  destruct (le_lt_dec (String.length s) e) as [Hle|Hle].
  - rewrite (slice_clamp s a e Hle).
    replace (a + (Nat.min e (String.length s) - a)) with (String.length s) by lia.
    apply slice_split. lia.
  - replace (a + (Nat.min e (String.length s) - a)) with e by lia.
    apply slice_split. lia.
Qed.

(** The loop of [_highlight] on separated captures.  [pre] are the keys
    already behind [loc], [post] the keys still ahead; [i] counts the
    former, so [locs[i]] is the next key ahead or the final sentinel. *)
Lemma gather_separated (s : string) (F : gmap nat Fragment) (ks : list nat)
    (dflt : StyleTag) :
  StronglySorted Nat.le ks ->
  NoDup ks ->
  (forall k, k ∈ ks <-> is_Some (F !! k)) ->
  captured_from s F ->
  separated s F ->
  forall (fuel : nat) (pre post : list nat) (loc : nat) (acc : FormattedText),
    ks = pre ++ post ->
    Forall (fun k => k < loc) pre ->
    Forall (fun k => loc <= k) post ->
    String.length s - loc <= fuel ->
    exists out,
      gather fuel s F (ks ++ [String.length s]) dflt (length pre) loc acc
      = Ok (acc ++ out) /\
      join_all (texts out) = slice s loc (String.length s).
Proof.
  intros Hsorted Hnodup Hkeys Hcap Hsep.
  assert (Hdone : forall fuel i loc acc,
    String.length s <= loc ->
    exists out,
      gather fuel s F (ks ++ [String.length s]) dflt i loc acc = Ok (acc ++ out) /\
      join_all (texts out) = slice s loc (String.length s)).
  { intros fuel i loc acc Hloc. exists []. split.
    - rewrite app_nil_r.
      destruct fuel; cbn [gather];
        (replace (loc <? String.length s) with false
           by (symmetry; apply Nat.ltb_ge; exact Hloc)); reflexivity.
    - rewrite slice_empty by (right; exact Hloc). reflexivity. }
  induction fuel as [|fuel IH]; intros pre post loc acc Hks Hpre Hpost Hfuel.
  { apply Hdone. lia. }
  destruct (le_lt_dec (String.length s) loc) as [Hge|Hlt]; [apply Hdone, Hge|].
  cbn [gather].
  replace (loc <? String.length s) with true
    by (symmetry; apply Nat.ltb_lt; exact Hlt).
  assert (Hpost_sorted : StronglySorted Nat.le post).
  { rewrite Hks in Hsorted. eapply StronglySorted_app_1_r, Hsorted. }
  destruct (F !! loc) as [[style text]|] eqn:Hlook.
  - (* a capture starts here *)
    assert (Hin : loc ∈ ks) by (apply Hkeys; eauto).
    rewrite Hks in Hin. apply elem_of_app in Hin as [Hin|Hin].
    { rewrite Forall_forall in Hpre. specialize (Hpre _ Hin). lia. }
    destruct post as [|h post']; [inversion Hin|].
    apply StronglySorted_cons in Hpost_sorted as [Hh_le Hpost'_sorted].
    assert (Hh : h = loc).
    { apply elem_of_cons in Hin as [Heq|Hin]; [congruence|].
      rewrite Forall_forall in Hh_le. specialize (Hh_le _ Hin).
      apply Forall_cons in Hpost as [Hlh _]. unfold Nat.le in *. lia. }
    subst h.
    destruct (Hcap _ _ _ Hlook) as [e He].
    destruct (Hsep loc (style, text) Hlook Hlt) as [Hne Hinside].
    cbn [snd] in Hne, Hinside |- *.
    assert (Hlen : 0 < String.length text).
    { destruct text; [contradiction | simpl; lia]. }
    destruct (IH (pre ++ [loc]) post' (loc + String.length text)
                (acc ++ [(style, text)])) as (out & Hrun & Hjoin).
    + rewrite Hks, <- app_assoc. reflexivity.
    + apply Forall_app. split.
      * eapply Forall_impl; [exact Hpre|]. simpl. intros k Hk. lia.
      * apply Forall_singleton. lia.
    + apply Forall_forall. intros k' Hk'.
      assert (Hle : loc <= k').
      { rewrite Forall_forall in Hh_le. apply (Hh_le _ Hk'). }
      assert (Hneq : k' <> loc).
      { intros ->. rewrite Hks in Hnodup.
        apply NoDup_app in Hnodup as (_ & _ & Hnd).
        apply NoDup_cons in Hnd as [Hnotin _]. contradiction. }
      destruct (le_lt_dec (loc + String.length text) k') as [Hok|Hbad];
        [exact Hok|].
      exfalso. rewrite Forall_forall in Hinside.
      assert (Hnone : F !! k' = None).
      { apply Hinside. apply elem_of_seq. lia. }
      assert (Hsome : is_Some (F !! k')).
      { apply Hkeys. rewrite Hks. apply elem_of_app. right.
        apply elem_of_cons. right. exact Hk'. }
      rewrite Hnone in Hsome. destruct Hsome as [? ?]. discriminate.
    + lia.
    + exists ((style, text) :: out). split.
      * rewrite length_app in Hrun. cbn [length] in Hrun.
        rewrite Hrun, <- app_assoc. reflexivity.
      * unfold texts in *. cbn [map snd]. rewrite join_all_cons, Hjoin, He.
        apply slice_then_rest.
  - (* no capture starts here *)
    assert (Hlocs : (ks ++ [String.length s]) !! length pre
                    = Some (match post with
                            | [] => String.length s
                            | b :: _ => b
                            end)).
    { rewrite Hks, <- app_assoc.
      rewrite lookup_app_r by lia. rewrite Nat.sub_diag.
      destruct post; reflexivity. }
    rewrite Hlocs.
    set (b := match post with [] => String.length s | b :: _ => b end) in *.
    assert (Hb : loc < b).
    { subst b. destruct post as [|b post']; [exact Hlt|].
      apply Forall_cons in Hpost as [Hlb _].
      assert (Hsome : is_Some (F !! b)).
      { apply Hkeys. rewrite Hks. apply elem_of_app. right.
        apply elem_of_cons. left. reflexivity. }
      destruct (decide (b = loc)) as [Heq|Hne]; [|lia].
      rewrite Heq in Hsome. destruct Hsome as [x Hx].
      assert (Hcontra : Some x = None) by (rewrite <- Hx; exact Hlook).
      discriminate. }
    destruct (IH pre post b (acc ++ [(dflt, slice s loc b)]))
      as (out & Hrun & Hjoin).
    + exact Hks.
    + eapply Forall_impl; [exact Hpre|]. simpl. intros k Hk. lia.
    + subst b. destruct post as [|b post']; [constructor|].
      apply StronglySorted_cons in Hpost_sorted as [Hb_le _].
      apply Forall_cons. split; [lia | exact Hb_le].
    + lia.
    + exists ((dflt, slice s loc b) :: out). split.
      * rewrite Hrun, <- app_assoc. reflexivity.
      * unfold texts in *. cbn [map snd]. rewrite join_all_cons, Hjoin.
        apply slice_split. lia.
Qed.

Lemma gather_origin (s : string) (F : gmap nat Fragment) (locs : list nat)
    (dflt : StyleTag) (fuel : nat) :
  forall (i loc : nat) (acc result : FormattedText),
    gather fuel s F locs dflt i loc acc = Ok result ->
    exists out,
      result = acc ++ out /\
      Forall (fun fragment =>
                (exists k, k < String.length s /\ F !! k = Some fragment) \/
                (exists a b, a < String.length s /\
                             fragment = (dflt, slice s a b)))
        out.
Proof.
  induction fuel as [|fuel IH]; intros i loc acc result; cbn [gather];
    destruct (loc <? String.length s) eqn:Hloc; try discriminate;
    try (intros [= <-]; exists []; rewrite app_nil_r; split;
         [reflexivity | constructor]).
  apply Nat.ltb_lt in Hloc.
  destruct (F !! loc) as [fragment|] eqn:Hlook.
  - intros Hrun. apply IH in Hrun as (out & -> & Hall).
    exists (fragment :: out). split; [rewrite <- app_assoc; reflexivity|].
    constructor; [left; eauto | exact Hall].
  - destruct (locs !! i) as [b|]; [|discriminate].
    intros Hrun. apply IH in Hrun as (out & -> & Hall).
    exists ((dflt, slice s loc b) :: out).
    split; [rewrite <- app_assoc; reflexivity|].
    constructor; [right; eauto | exact Hall].
Qed.

Lemma reconstruct_separated (s : string) (F : gmap nat Fragment)
    (pygments_styles : bool) (fuel : nat) :
  captured_from s F ->
  separated s F ->
  String.length s <= fuel ->
  exists fragments,
    reconstruct fuel pygments_styles s F = Ok fragments /\
    join_all (texts fragments) = s.
Proof.
  intros Hcap Hsep Hfuel. unfold reconstruct.
  destruct (gather_separated s F (sorted_keys F) (default_style pygments_styles)
              (sorted_keys_sorted F) (sorted_keys_NoDup F)
              (sorted_keys_elem_of F) Hcap Hsep fuel [] (sorted_keys F) 0 [])
    as (out & Hrun & Hjoin).
  - reflexivity.
  - constructor.
  - apply Forall_forall. intros k _. lia.
  - lia.
  - exists out. split; [exact Hrun|]. rewrite Hjoin. apply slice_whole.
Qed.

Lemma texts_shown (pygments_display : StyleTag -> StyleTag)
    (fragments : FormattedText) :
  texts (shown pygments_display fragments) = texts fragments.
Proof. unfold texts, shown. rewrite map_map. reflexivity. Qed.

(** On token styles [to_formatted_text] returns, with every style replaced. *)
Lemma to_formatted_text_tokens (pygments_display : StyleTag -> StyleTag)
    (fragments : FormattedText) :
  Forall is_token_style fragments ->
  to_formatted_text pygments_display fragments
  = Ok (shown pygments_display fragments).
Proof.
  induction fragments as [|[style text] rest IH]; intros Hall.
  - reflexivity.
  - apply Forall_cons in Hall as [Hhead Hrest].
    destruct style as [st|tok]; [contradiction|].
    cbn [to_formatted_text]. rewrite (IH Hrest). reflexivity.
Qed.

(** With Pygments styles on and captures that fit, every fragment of the
    reconstruction carries a token: a capture's, or [Token.Text]. *)
Lemma reconstruct_token_styles (s : string) (F : gmap nat Fragment)
    (fuel : nat) (fragments : FormattedText) :
  styles_fit true s F ->
  reconstruct fuel true s F = Ok fragments ->
  Forall is_token_style fragments.
Proof.
  intros Hfit Hrun. unfold reconstruct in Hrun.
  apply gather_origin in Hrun as (out & -> & Hall). simpl.
  eapply Forall_impl; [exact Hall|]. simpl.
  intros fragment [(k & Hk & Hlook) | (a & b & _ & ->)].
  - apply (Hfit eq_refl k fragment Hlook Hk).
  - exact I.
Qed.

(** C1, as amended. When the scan has ended, the captures it left are
    separated (each capture that starts inside the text is non-empty, and no
    capture starts strictly inside another one's span) and, with Pygments
    styles on, each of them carries a Pygments token, [highlight] returns,
    and the texts of its fragments, joined in order, are the input. *)
Theorem highlight_text_fidelity {G : Type}
    (pygments_display : StyleTag -> StyleTag) (g : Grammar G) (g0 : G)
    (pygments_styles : bool) (s : string) (fuel : nat) (st : ScanState G) :
  _scan_string fuel g g0 s ∅ = Ok st ->
  separated s (sc_fragments st) ->
  styles_fit pygments_styles s (sc_fragments st) ->
  String.length s <= fuel ->
  exists fragments,
    highlight pygments_display fuel g g0 pygments_styles s = Ok fragments /\
    join_all (texts fragments) = s.
Proof.
  intros Hscan Hsep Hfit Hfuel.
  assert (Hcap : captured_from s (sc_fragments st)).
  { eapply scan_loop_captured; [|exact Hscan]. apply empty_captured. }
  destruct (reconstruct_separated s (sc_fragments st) pygments_styles fuel
              Hcap Hsep Hfuel) as (fragments & Hrec & Hjoin).
  unfold highlight, _highlight. rewrite Hscan, Hrec.
  destruct pygments_styles.
  - rewrite (to_formatted_text_tokens pygments_display fragments)
      by (eapply reconstruct_token_styles; eassumption).
    eexists. split; [reflexivity|]. rewrite texts_shown. exact Hjoin.
  - eexists. split; [reflexivity | exact Hjoin].
Qed.

Lemma highlight_text_fidelity_witness :
  exists fragments,
    highlight (fun style => style) 5 token_grammar tt true "a, a" = Ok fragments /\
    join_all (texts fragments) = "a, a".
Proof.
  eapply (highlight_text_fidelity (fun style => style) token_grammar tt true
            "a, a" 5).
  - vm_compute. reflexivity.
  - apply (bool_decide_unpack _). vm_compute. exact I.
  - apply (bool_decide_unpack _). vm_compute. exact I.
  - simpl. lia.
Defined.

(** C1, as stated, fails: with a styled rule nested in a styled rule, the
    text [abcd] comes back as [abc], an empty filler, [b] and [cd]. *)
Lemma nested_capture_repeats_text :
  highlight (fun style => style) 5 nested_grammar tt false "abcd"
  = Ok [(StyleStr "class:outer", "abc"); (StyleStr EmptyString, EmptyString);
        (StyleStr "class:inner", "b"); (StyleStr EmptyString, "cd")] /\
  join_all ["abc"; EmptyString; "b"; "cd"] = "abcbcd" /\
  "abcbcd" <> "abcd".
Proof.
  split; [vm_compute; reflexivity|]. split; [reflexivity | discriminate].
Qed.

(** ** Offsets of the fragments *)

Lemma slice_shift (c : ascii) (s : string) (a b : nat) :
  slice (String c s) (S a) (S b) = slice s a b.
Proof. reflexivity. Qed.

Lemma slice_prefix (text rest : string) :
  slice (text +:+ rest) 0 (String.length text) = text.
Proof.
  unfold slice. rewrite Nat.sub_0_r.
  induction text as [|c text IH].
  - apply substring_zero.
  - rewrite append_String. simpl. f_equal. exact IH.
Qed.

Lemma slice_middle (pre text rest : string) :
  slice (pre +:+ (text +:+ rest)) (String.length pre)
    (String.length pre + String.length text) = text.
Proof.
  induction pre as [|c pre IH].
  - exact (slice_prefix text rest).
  - rewrite append_String. simpl String.length. rewrite Nat.add_succ_l.
    rewrite slice_shift. exact IH.
Qed.

Lemma spans_from_head (fragments : FormattedText) (start a b : nat) :
  spans_from start fragments !! 0 = Some (a, b) -> a = start.
Proof. destruct fragments as [|[style text] rest]; simpl; congruence. Qed.

Lemma spans_from_adjacent (fragments : FormattedText) :
  forall start i a b c d,
    spans_from start fragments !! i = Some (a, b) ->
    spans_from start fragments !! S i = Some (c, d) ->
    b = c.
Proof.
  induction fragments as [|[style text] rest IH]; intros start i a b c d.
  - discriminate.
  - destruct i as [|i]; simpl.
    + intros [= <- <-] Hnext. apply spans_from_head in Hnext. congruence.
    + apply IH.
Qed.

Lemma spans_from_last (fragments : FormattedText) :
  forall start a b,
    last (spans_from start fragments) = Some (a, b) ->
    b = start + String.length (join_all (texts fragments)).
Proof.
  induction fragments as [|[style text] rest IH]; intros start a b.
  - discriminate.
  - unfold texts in *. cbn [map snd spans_from].
    rewrite join_all_cons, string_length_append.
    destruct rest as [|f rest'].
    + simpl. intros [= <- <-]. lia.
    + intros Hlast. rewrite Nat.add_assoc. apply (IH _ a).
      destruct f as [style' text']. exact Hlast.
Qed.

Lemma spans_from_text (fragments : FormattedText) :
  forall (pre : string) i style text a b,
    fragments !! i = Some (style, text) ->
    spans_from (String.length pre) fragments !! i = Some (a, b) ->
    text = slice (pre +:+ join_all (texts fragments)) a b.
Proof.
  induction fragments as [|[style0 text0] rest IH];
    intros pre i style text a b.
  - discriminate.
  - unfold texts in *. cbn [map snd spans_from]. rewrite join_all_cons.
    destruct i as [|i]; simpl.
    + intros [= <- <-] [= <- <-]. symmetry. apply slice_middle.
    + intros Hi Hspan. rewrite <- string_append_assoc.
      apply (IH (pre +:+ text0) i style); [exact Hi|].
      rewrite string_length_append. exact Hspan.
Qed.

Lemma spans_shown (pygments_display : StyleTag -> StyleTag)
    (fragments : FormattedText) :
  forall start,
    spans_from start (shown pygments_display fragments)
    = spans_from start fragments.
Proof.
  induction fragments as [|[style text] rest IH]; intros start; simpl.
  - reflexivity.
  - f_equal. apply IH.
Qed.

(** C2, as amended. When the scan has ended, the captures it left are
    separated and, with Pygments styles on, each of them carries a Pygments
    token, [highlight] returns fragments whose offsets (each fragment
    starting where the texts before it end) begin at 0, follow one another
    without gap or overlap, end at the length of the input, and each
    fragment's text is the input between its two offsets. *)
Theorem highlight_gapless {G : Type}
    (pygments_display : StyleTag -> StyleTag) (g : Grammar G) (g0 : G)
    (pygments_styles : bool) (s : string) (fuel : nat) (st : ScanState G) :
  _scan_string fuel g g0 s ∅ = Ok st ->
  separated s (sc_fragments st) ->
  styles_fit pygments_styles s (sc_fragments st) ->
  String.length s <= fuel ->
  exists fragments,
    highlight pygments_display fuel g g0 pygments_styles s = Ok fragments /\
    (forall a b, spans fragments !! 0 = Some (a, b) -> a = 0) /\
    (forall i a b c d,
        spans fragments !! i = Some (a, b) ->
        spans fragments !! S i = Some (c, d) -> b = c) /\
    (forall a b, last (spans fragments) = Some (a, b) -> b = String.length s) /\
    (forall i style text a b,
        fragments !! i = Some (style, text) ->
        spans fragments !! i = Some (a, b) -> text = slice s a b).
Proof.
  intros Hscan Hsep Hfit Hfuel.
  assert (Hcap : captured_from s (sc_fragments st)).
  { eapply scan_loop_captured; [|exact Hscan]. apply empty_captured. }
  destruct (reconstruct_separated s (sc_fragments st) pygments_styles fuel
              Hcap Hsep Hfuel) as (gathered & Hrec & Hjoin).
  set (fragments := if pygments_styles
                    then shown pygments_display gathered
                    else gathered).
  assert (Hspans : forall start,
    spans_from start fragments = spans_from start gathered).
  { intros start. subst fragments. destruct pygments_styles;
      [apply spans_shown | reflexivity]. }
  assert (Htexts : join_all (texts fragments) = s).
  { subst fragments. destruct pygments_styles;
      [rewrite texts_shown|]; exact Hjoin. }
  exists fragments. split.
  { unfold highlight, _highlight. rewrite Hscan, Hrec. subst fragments.
    destruct pygments_styles; [|reflexivity].
    apply to_formatted_text_tokens.
    eapply reconstruct_token_styles; eassumption. }
  unfold spans.
  split; [intros a b; apply spans_from_head|].
  split; [apply spans_from_adjacent|].
  split.
  - intros a b Hlast. apply spans_from_last in Hlast.
    rewrite Htexts in Hlast. exact Hlast.
  - intros i style text a b Hi Hspan.
    pose proof (spans_from_text fragments EmptyString i style text a b Hi Hspan)
      as Htext.
    rewrite Htexts in Htext. exact Htext.
Qed.

Lemma highlight_gapless_witness :
  exists fragments,
    highlight (fun style => style) 5 letter_grammar tt false "a, a" = Ok fragments /\
    (forall a b, spans fragments !! 0 = Some (a, b) -> a = 0) /\
    (forall i a b c d,
        spans fragments !! i = Some (a, b) ->
        spans fragments !! S i = Some (c, d) -> b = c) /\
    (forall a b, last (spans fragments) = Some (a, b) -> b = 4) /\
    (forall i style text a b,
        fragments !! i = Some (style, text) ->
        spans fragments !! i = Some (a, b) -> text = slice "a, a" a b).
Proof.
  eapply (highlight_gapless (fun style => style) letter_grammar tt false
            "a, a" 5).
  - vm_compute. reflexivity.
  - apply (bool_decide_unpack _). vm_compute. exact I.
  - intros Hon. discriminate.
  - simpl. lia.
Defined.

(** C2, as stated, fails: with a styled rule nested in a styled rule, the
    fragments returned for [abcd] end at offset 6, past the end of the
    four-character input. *)
Lemma nested_capture_overruns :
  exists fragments,
    highlight (fun style => style) 5 nested_grammar tt false "abcd" = Ok fragments /\
    spans fragments = [(0, 3); (3, 3); (3, 4); (4, 6)] /\
    last (spans fragments) = Some (4, 6) /\
    String.length "abcd" = 4.
Proof.
  eexists. split; [vm_compute; reflexivity|].
  split; [reflexivity|]. split; reflexivity.
Qed.

(** ** The HTML adapter *)

Lemma html_escape_empty (name : string) :
  html_escape name = EmptyString <-> name = EmptyString.
Proof.
  split; [|intros ->; reflexivity].
  destruct name as [|c name]; [reflexivity|]. simpl.
  unfold escape_char.
  repeat match goal with
         | |- context [if ?b then _ else _] => destruct b
         end; discriminate.
Qed.

(** The loop that collects the classes visits the tokens in order and keeps
    the escaped name of each [class:] token. *)
Lemma freeform_classes_names (style : string) :
  freeform_classes style = map html_escape (class_names style).
Proof.
  unfold freeform_classes, class_names.
  assert (Hfold : forall tokens classes,
    foldl (fun classes st =>
             if startswith st "class:"
             then classes ++ [html_escape (slice st 6 (String.length st))]
             else classes) classes tokens
    = classes ++ map html_escape
        (map (fun st => slice st 6 (String.length st))
           (List.filter (fun st => startswith st "class:") tokens))).
  { induction tokens as [|st tokens IH]; intros classes; simpl.
    - rewrite app_nil_r. reflexivity.
    - rewrite IH. destruct (startswith st "class:"); simpl.
      + rewrite <- app_assoc. reflexivity.
      + reflexivity. }
  apply (Hfold (split style) []).
Qed.

(** C8, as amended. In free-form mode the classes of a fragment are the
    HTML-escaped names of the [class:] tokens of its style, in order; the
    fragment is emitted as a [span] carrying all of them, joined by single
    spaces, when there is such a token and the name of the first one is not
    empty, and as the bare escaped text otherwise; the loop over the
    fragments appends these tags in order. *)
Theorem freeform_html_tags (STANDARD_TYPES : Token -> option string)
    (style text : string) (rest : FormattedText) (tags : list string) :
  let classes := map html_escape (class_names style) in
  fragment_classes STANDARD_TYPES false (StyleStr style) = Ok classes /\
  ((exists name names, class_names style = name :: names /\ name <> EmptyString) ->
   fragment_tag classes text
   = template (String.concat " " classes) (html_escape text)) /\
  (~ (exists name names, class_names style = name :: names /\ name <> EmptyString) ->
   fragment_tag classes text = html_escape text) /\
  html_tags STANDARD_TYPES false ((StyleStr style, text) :: rest) tags
  = html_tags STANDARD_TYPES false rest (tags ++ [fragment_tag classes text]).
Proof.
  intros classes.
  assert (Hclasses : fragment_classes STANDARD_TYPES false (StyleStr style)
                     = Ok classes).
  { unfold fragment_classes. rewrite freeform_classes_names. reflexivity. }
  split; [exact Hclasses|]. split; [|split].
  - intros (name & names & Hnames & Hne). subst classes. rewrite Hnames.
    unfold fragment_tag. cbn [map].
    destruct (html_escape name) as [|c escaped] eqn:Hesc; [|reflexivity].
    exfalso. apply Hne, html_escape_empty, Hesc.
  - intros Hnone. subst classes. unfold fragment_tag.
    destruct (class_names style) as [|name names]; [reflexivity|]. cbn [map].
    destruct (html_escape name) as [|c escaped] eqn:Hesc; [reflexivity|].
    exfalso. apply Hnone. exists name, names. split; [reflexivity|].
    intros ->. discriminate.
  - cbn [html_tags]. rewrite Hclasses. reflexivity.
Qed.

(** C8, as stated, fails twice over: a style whose first [class:] token has
    an empty name is emitted without a [span] although a non-empty class
    name follows, and a class name is escaped rather than used as it is. *)
Lemma freeform_html_tag_differs :
  (html_tags (fun _ => None) false [(StyleStr "class: class:b", "x")] []
   = Ok ["x"] /\
   class_names "class: class:b" = [EmptyString; "b"] /\
   specified_tag "class: class:b" "x" <> "x") /\
  (html_tags (fun _ => None) false [(StyleStr "class:a&b", "x")] []
   = Ok [template "a&amp;b" "x"] /\
   class_names "class:a&b" = ["a&b"] /\
   specified_tag "class:a&b" "x" = template "a&b" "x").
Proof.
  split; (split; [reflexivity|]); (split; [reflexivity|]).
  - discriminate.
  - reflexivity.
Qed.

(** ** The capture wrapper *)

Lemma pop_snoc (toks : list Tok) (t : Tok) : pop (toks ++ [t]) = Some (toks, t).
Proof. unfold pop. rewrite rev_unit, rev_involutive. reflexivity. Qed.

(** C9, as amended. For a rule whose own skip rule stops where the skip rule
    of a fresh [Locator] stops, the rule wrapped by [styler] succeeds exactly
    when the rule does and ends at the same location, with or without parse
    actions; with parse actions it returns the same tokens and makes one more
    run of the capturing action, from the skip position to that end. *)
Theorem styler_transparent (locator_preParse : string -> nat -> nat)
    (style : StyleTag) (expr : ParserElement) (s : string) (loc : nat) :
  pe_preParse expr s loc = locator_preParse s loc ->
  (forall doActions,
      accepted (element_parse (styler locator_preParse style expr) s loc doActions true)
      = accepted (element_parse expr s loc doActions true)) /\
  element_parse (styler locator_preParse style expr) s loc true true
  = match element_parse expr s loc true true with
    | (calls, inl err) => (calls, inl err)
    | (calls, inr (end_loc, toks)) =>
        (calls ++ [MkActionCall style (locator_preParse s loc) end_loc],
         inr (end_loc, toks))
    end.
Proof.
  intros Hskip.
  assert (Hinner : forall doActions,
    element_parse expr s (locator_preParse s loc) doActions false
    = element_parse expr s loc doActions true).
  { intros doActions. unfold element_parse. rewrite Hskip. reflexivity. }
  split.
  - intros doActions.
    unfold element_parse at 1. cbn [styler setParseAction Locator pe_preParse
                                     pe_parseImpl pe_parseAction].
    unfold Locator_parseImpl. rewrite Hinner.
    destruct (element_parse expr s loc doActions true)
      as [calls [err|[end_loc toks]]]; [reflexivity|].
    destruct doActions; [|reflexivity].
    cbn [run_parse_actions]. unfold styler_action. rewrite pop_snoc.
    reflexivity.
  - unfold element_parse at 1. cbn [styler setParseAction Locator pe_preParse
                                      pe_parseImpl pe_parseAction].
    unfold Locator_parseImpl. rewrite Hinner.
    destruct (element_parse expr s loc true true)
      as [calls [err|[end_loc toks]]]; [reflexivity|].
    cbn [run_parse_actions]. unfold styler_action. rewrite pop_snoc.
    rewrite app_nil_r. reflexivity.
Qed.

Lemma styler_transparent_witness :
  (forall doActions,
      accepted (element_parse (styler default_preParse (StyleStr "class:a")
                                 (Literal "a")) " a" 0 doActions true)
      = accepted (element_parse (Literal "a") " a" 0 doActions true)) /\
  element_parse (styler default_preParse (StyleStr "class:a") (Literal "a"))
    " a" 0 true true
  = match element_parse (Literal "a") " a" 0 true true with
    | (calls, inl err) => (calls, inl err)
    | (calls, inr (end_loc, toks)) =>
        (calls ++ [MkActionCall (StyleStr "class:a") (default_preParse " a" 0) end_loc],
         inr (end_loc, toks))
    end.
Proof.
  apply (styler_transparent default_preParse (StyleStr "class:a") (Literal "a")
           " a" 0).
  reflexivity.
Defined.

(** C9, as stated, fails: [pp.Literal('a').leaveWhitespace()] rejects the
    text [ a] at offset 0, and the same rule wrapped by [styler] accepts it,
    ending at offset 2, because the wrapper skips the blank and then calls
    the rule without its own skip rule. *)
Lemma styler_changes_skipping :
  accepted (element_parse (leaveWhitespace (Literal "a")) " a" 0 true true)
  = None /\
  accepted (element_parse
              (styler default_preParse (StyleStr "class:a")
                 (leaveWhitespace (Literal "a"))) " a" 0 true true)
  = Some 2.
Proof. split; reflexivity. Qed.

(** * Further properties of the code *)

(** ** What the scan raises, warns about and records *)

(** [_scan_string] raises in one case only: the skip rule failed in the
    first iteration; the exception raised is that failure. *)
Lemma scan_raises_iff_first_skip_fails {G : Type} (g : Grammar G) (g0 : G)
    (s : string) (F : gmap nat Fragment) (fuel : nat) (err : exn) :
  _scan_string fuel g g0 s F = Raise err <->
  0 < fuel /\ snd (preParse g g0 s 0) = inl err.
Proof.
  unfold _scan_string. destruct fuel as [|fuel]; simpl.
  { split; [discriminate | intros [H _]; lia]. }
  unfold scan_iteration. simpl.
  destruct (preParse g g0 s 0) as [[g1 calls1] [e|preloc]]; simpl.
  - split.
    + intros [= ->]. split; [lia | reflexivity].
    + intros [_ [= ->]]. reflexivity.
  - split; [|intros [_ H]; discriminate].
    intros Hraise. exfalso.
    destruct (_parse g g1 s preloc) as [[g2 calls2] [e|nextloc]];
      simpl in Hraise; revert Hraise; apply scan_loop_no_raise; discriminate.
Qed.

Lemma except_branch_warnings {G : Type} (err : exn) (st st' : ScanState G) :
  except_branch err st = inl st' ->
  sc_warnings st' =
    sc_warnings st ++ match err with
                      | ParseBaseException => []
                      | OtherException kind msg => [warning_message kind msg]
                      end.
Proof.
  unfold except_branch. destruct (sc_preloc st); [|discriminate].
  intros [= <-]. simpl. destruct err; [rewrite app_nil_r|]; reflexivity.
Qed.

Lemma scan_iteration_quiet {G : Type} (g : Grammar G) (s : string)
    (st st' : ScanState G) :
  only_no_match g s ->
  scan_iteration g s st = inl st' -> sc_warnings st' = sc_warnings st.
Proof.
  intros Hquiet. unfold scan_iteration.
  pose proof (Hquiet (sc_grammar st) (sc_loc st)) as Hpre.
  destruct (preParse g (sc_grammar st) s (sc_loc st)) as [[g1 calls1] [e|preloc]].
  - intros H. apply except_branch_warnings in H. rewrite H. simpl.
    destruct e as [|kind msg]; [apply app_nil_r|].
    destruct (Hpre kind msg) as [Hno _]. contradiction Hno. reflexivity.
  - pose proof (Hquiet g1 preloc) as Hparse.
    destruct (_parse g g1 s preloc) as [[g2 calls2] [e|nextloc]].
    + intros H. apply except_branch_warnings in H. rewrite H. simpl.
      destruct e as [|kind msg]; [apply app_nil_r|].
      destruct (Hparse kind msg) as [_ Hno]. contradiction Hno. reflexivity.
    + intros [= <-]. reflexivity.
Qed.

(** X2. When the grammar raises nothing but its no-match signal, the scan
    passes no message to [warn]: ordinary non-matches stay invisible. *)
Theorem no_match_is_silent {G : Type} (g : Grammar G) (g0 : G) (s : string)
    (F : gmap nat Fragment) (fuel : nat) (st : ScanState G) :
  only_no_match g s ->
  _scan_string fuel g g0 s F = Ok st ->
  sc_warnings st = [].
Proof.
  intros Hquiet. unfold _scan_string.
  assert (Hloop : forall fuel (st0 st1 : ScanState G),
    scan_loop fuel g s st0 = Ok st1 -> sc_warnings st1 = sc_warnings st0).
  { clear fuel st. induction fuel as [|fuel IH]; intros st0 st1; simpl;
      destruct (sc_loc st0 <=? String.length s); try discriminate;
      try (intros [= <-]; reflexivity).
    destruct (scan_iteration g s st0) as [st0'|e] eqn:Hit; [|discriminate].
    intros Hrun. rewrite (IH _ _ Hrun).
    eapply scan_iteration_quiet; eassumption. }
  intros Hrun. apply Hloop in Hrun. exact Hrun.
Qed.

Lemma no_match_is_silent_witness :
  exists st, _scan_string 5 never_grammar tt "1, 2" ∅ = Ok st /\
             sc_warnings st = [].
Proof.
  eexists. split; [vm_compute; reflexivity|].
  eapply (no_match_is_silent never_grammar tt "1, 2" ∅ 5);
    [|vm_compute; reflexivity].
  intros gs loc kind msg. split; simpl; discriminate.
Defined.

Lemma scan_iteration_counts {G : Type} (g : Grammar G) (s : string)
    (st st' : ScanState G) :
  scan_iteration g s st = inl st' ->
  sc_iterations st' = S (sc_iterations st) /\
  length (sc_warnings st') <= S (length (sc_warnings st)).
Proof.
  case_iteration g st; intros H.
  - pose proof (except_branch_warnings _ _ _ H) as Hw.
    apply except_branch_inl in H as (_ & _ & _ & _ & _ & ->).
    rewrite Hw, length_app. simpl. split; [reflexivity|].
    destruct err; simpl; lia.
  - pose proof (except_branch_warnings _ _ _ H) as Hw.
    apply except_branch_inl in H as (_ & _ & _ & _ & _ & ->).
    rewrite Hw, length_app. simpl. split; [reflexivity|].
    destruct err; simpl; lia.
  - injection H as <-. simpl. split; [reflexivity | lia].
Qed.

(** X3. A scan that ends has passed at most one message to [warn] per
    iteration of its loop. *)
Theorem at_most_one_warning_per_iteration {G : Type} (g : Grammar G) (g0 : G)
    (s : string) (F : gmap nat Fragment) (fuel : nat) (st : ScanState G) :
  _scan_string fuel g g0 s F = Ok st ->
  length (sc_warnings st) <= sc_iterations st.
Proof.
  unfold _scan_string.
  assert (Hloop : forall fuel (st0 st1 : ScanState G),
    scan_loop fuel g s st0 = Ok st1 ->
    length (sc_warnings st0) <= sc_iterations st0 ->
    length (sc_warnings st1) <= sc_iterations st1).
  { clear fuel st. induction fuel as [|fuel IH]; intros st0 st1; simpl;
      destruct (sc_loc st0 <=? String.length s); try discriminate;
      try (intros [= <-] H; exact H).
    destruct (scan_iteration g s st0) as [st0'|e] eqn:Hit; [|discriminate].
    intros Hrun Hle. apply (IH _ _ Hrun).
    apply scan_iteration_counts in Hit as [-> Hw]. lia. }
  intros Hrun. apply (Hloop _ _ _ Hrun). simpl. lia.
Qed.

Lemma at_most_one_warning_per_iteration_witness :
  exists st, _scan_string 3 faulty_grammar tt "ab" ∅ = Ok st /\
             length (sc_warnings st) <= sc_iterations st.
Proof.
  eexists. split; [vm_compute; reflexivity|].
  eapply (at_most_one_warning_per_iteration faulty_grammar tt "ab" ∅ 3).
  vm_compute. reflexivity.
Defined.

(** X4. After a scan that started from the empty table, every recorded text
    is the input from its key up to some end offset, so it lies inside the
    input. *)
Theorem captures_are_slices {G : Type} (g : Grammar G) (g0 : G) (s : string)
    (fuel : nat) (st : ScanState G) :
  _scan_string fuel g g0 s ∅ = Ok st ->
  forall k style text,
    sc_fragments st !! k = Some (style, text) ->
    (exists e, text = slice s k e) /\
    k + String.length text <= Nat.max k (String.length s).
Proof.
  intros Hscan k style text Hlook.
  assert (Hcap : captured_from s (sc_fragments st)).
  { eapply scan_loop_captured; [|exact Hscan]. apply empty_captured. }
  destruct (Hcap k style text Hlook) as [e ->].
  split; [eauto|]. rewrite slice_length. lia.
Qed.

Lemma captures_are_slices_witness :
  exists st,
    _scan_string 5 integer_grammar tt "1, 22" ∅ = Ok st /\
    forall k style text,
      sc_fragments st !! k = Some (style, text) ->
      (exists e, text = slice "1, 22" k e) /\
      k + String.length text <= Nat.max k 5.
Proof.
  eexists. split; [vm_compute; reflexivity|].
  eapply (captures_are_slices integer_grammar tt "1, 22" 5).
  vm_compute. reflexivity.
Defined.

(** X5. The table after a series of runs of the action: at every key the
    last run at that key wins, and a key no run touched keeps its entry. *)
Theorem last_capture_wins (s : string) (calls : list ActionCall) :
  forall (F : gmap nat Fragment) (k : nat),
    run_actions s F calls !! k =
      match last_call k calls with
      | Some c => Some (ac_style c, slice s k (ac_end c))
      | None => F !! k
      end.
Proof.
  unfold run_actions, last_call.
  induction calls as [|c calls IH]; intros F k; simpl.
  - reflexivity.
  - rewrite IH. unfold action.
    destruct (ac_loc c =? k) eqn:Hk.
    + apply Nat.eqb_eq in Hk. rewrite last_cons.
      destruct (last (List.filter (fun c0 => ac_loc c0 =? k) calls));
        [reflexivity|].
      rewrite <- Hk. apply lookup_insert_eq.
    + apply Nat.eqb_neq in Hk.
      destruct (last (List.filter (fun c0 => ac_loc c0 =? k) calls));
        [reflexivity|].
      apply lookup_insert_ne. exact Hk.
Qed.

Lemma run_actions_union (s : string) (calls : list ActionCall) :
  forall F F0 : gmap nat Fragment,
    run_actions s (F ∪ F0) calls = run_actions s F calls ∪ F0.
Proof.
  unfold run_actions. induction calls as [|c calls IH]; intros F F0; simpl.
  - reflexivity.
  - unfold action at 2 4. rewrite insert_union_l. apply IH.
Qed.

Lemma scan_iteration_overlaid {G : Type} (g : Grammar G) (s : string)
    (F0 : gmap nat Fragment) (st st' : ScanState G) :
  overlaid F0 st st' ->
  match scan_iteration g s st, scan_iteration g s st' with
  | inl st1, inl st1' => overlaid F0 st1 st1'
  | inr err, inr err' => err = err'
  | _, _ => False
  end.
Proof.
  intros ->. unfold scan_iteration. simpl.
  destruct (preParse g (sc_grammar st) s (sc_loc st)) as [[g1 calls1] [e|preloc]].
  - unfold except_branch. simpl.
    destruct (sc_preloc st); [|reflexivity].
    unfold overlaid. simpl. rewrite run_actions_union. reflexivity.
  - destruct (_parse g g1 s preloc) as [[g2 calls2] [e|nextloc]];
      unfold except_branch, overlaid; simpl;
      rewrite !run_actions_union; reflexivity.
Qed.

(** X6. [_scan_string] itself never clears or removes an entry: started on
    a table [F0] it ends exactly as when started on the empty table, with
    the entries of [F0] still present under every key the scan did not
    write. *)
Theorem scan_keeps_earlier_entries {G : Type} (g : Grammar G) (g0 : G)
    (s : string) (F0 : gmap nat Fragment) (fuel : nat) (st : ScanState G) :
  _scan_string fuel g g0 s ∅ = Ok st ->
  exists st',
    _scan_string fuel g g0 s F0 = Ok st' /\
    sc_fragments st' = sc_fragments st ∪ F0 /\
    sc_loc st' = sc_loc st /\
    sc_warnings st' = sc_warnings st.
Proof.
  unfold _scan_string.
  assert (Hloop : forall fuel (st0 st0' st1 : ScanState G),
    overlaid F0 st0 st0' ->
    scan_loop fuel g s st0 = Ok st1 ->
    exists st1', scan_loop fuel g s st0' = Ok st1' /\ overlaid F0 st1 st1').
  { clear fuel st. induction fuel as [|fuel IH]; intros st0 st0' st1 Hov;
      pose proof Hov as Heq; unfold overlaid in Heq; subst st0'; simpl;
      destruct (sc_loc st0 <=? String.length s); try discriminate;
      try (intros [= <-]; eexists; split; [reflexivity | exact Hov]).
    pose proof (scan_iteration_overlaid g s F0 st0 _ Hov) as Hstep.
    destruct (scan_iteration g s st0) as [st2|e];
      destruct (scan_iteration g s _) as [st2'|e'];
      try contradiction; try discriminate.
    apply IH. exact Hstep. }
  intros Hscan.
  destruct (Hloop fuel (scan_init g0 ∅) (scan_init g0 F0) st) as (st' & Hrun & Hov).
  - unfold overlaid, scan_init. simpl. rewrite (left_id_L ∅ (∪)). reflexivity.
  - exact Hscan.
  - exists st'. split; [exact Hrun|]. rewrite Hov. simpl. auto.
Qed.

Lemma scan_keeps_earlier_entries_witness :
  exists st st',
    _scan_string 5 integer_grammar tt "1, 22" ∅ = Ok st /\
    _scan_string 5 integer_grammar tt "1, 22"
      {[ 1 := (StyleStr "class:old", "x") ]} = Ok st' /\
    sc_fragments st' = sc_fragments st ∪ {[ 1 := (StyleStr "class:old", "x") ]} /\
    sc_loc st' = sc_loc st /\
    sc_warnings st' = sc_warnings st.
Proof.
  eexists.
  destruct (scan_keeps_earlier_entries integer_grammar tt "1, 22"
              {[ 1 := (StyleStr "class:old", "x") ]} 5 _
              ltac:(vm_compute; reflexivity)) as (st' & H).
  exists st'. split; [vm_compute; reflexivity | exact H].
Defined.

(** ** What the reconstruction returns *)

Lemma strictly_sorted_lookup (l : list nat) :
  StronglySorted Nat.le l -> NoDup l ->
  forall i j x y, i < j -> l !! i = Some x -> l !! j = Some y -> x < y.
Proof.
  induction l as [|a l IH]; intros Hsorted Hnodup i j x y Hij Hi Hj.
  - discriminate.
  - apply StronglySorted_cons in Hsorted as [Hall Hsorted].
    apply NoDup_cons in Hnodup as [Hnotin Hnodup].
    destruct j as [|j]; [lia|]. simpl in Hj.
    destruct i as [|i]; simpl in Hi.
    + injection Hi as <-.
      assert (Hy : y ∈ l) by (apply list_elem_of_lookup; eauto).
      rewrite Forall_forall in Hall. specialize (Hall _ Hy).
      assert (a <> y) by (intros ->; contradiction).
      unfold Nat.le in *. lia.
    + apply (IH Hsorted Hnodup i j); [lia | assumption | assumption].
Qed.

Lemma sorted_keys_length (F : gmap nat Fragment) :
  length (sorted_keys F) = size F.
Proof.
  unfold sorted_keys. rewrite merge_sort_Permutation.
  rewrite <- (size_dom (D := gset nat) F). reflexivity.
Qed.

(** The loop of [_highlight] when no capture inside the text is empty: the
    first [i] keys are behind [loc], and each iteration either emits a
    capture and counts it, or jumps to the key numbered [i]. *)
Lemma gather_terminates (s : string) (F : gmap nat Fragment) (dflt : StyleTag) :
  nonempty_captures s F ->
  forall (fuel i loc : nat) (acc : FormattedText),
    i <= length (sorted_keys F) ->
    Forall (fun k => k < loc) (take i (sorted_keys F)) ->
    2 * (length (sorted_keys F) - i)
      + match F !! loc with Some _ => 0 | None => 1 end <= fuel ->
    exists out,
      gather fuel s F (sorted_keys F ++ [String.length s]) dflt i loc acc
      = Ok (acc ++ out) /\
      length out <= 2 * (length (sorted_keys F) - i)
                    + match F !! loc with Some _ => 0 | None => 1 end.
Proof.
  intros Hne.
  set (ks := sorted_keys F).
  assert (Hlt : forall i j x y,
    i < j -> ks !! i = Some x -> ks !! j = Some y -> x < y).
  { apply strictly_sorted_lookup;
      [apply sorted_keys_sorted | apply sorted_keys_NoDup]. }
  assert (Hdone : forall fuel i loc acc,
    String.length s <= loc ->
    gather fuel s F (ks ++ [String.length s]) dflt i loc acc = Ok acc).
  { intros fuel i loc acc Hloc.
    destruct fuel; cbn [gather];
      (replace (loc <? String.length s) with false
         by (symmetry; apply Nat.ltb_ge; exact Hloc)); reflexivity. }
  assert (Hbehind : forall i loc,
    Forall (fun k => k < loc) (take i ks) ->
    is_Some (F !! loc) ->
    exists j, i <= j /\ ks !! j = Some loc).
  { intros i loc Hpre Hsome.
    apply sorted_keys_elem_of in Hsome.
    apply list_elem_of_lookup in Hsome as [j Hj].
    exists j. split; [|exact Hj].
    destruct (le_lt_dec i j) as [Hle|Hgt]; [exact Hle|]. exfalso.
    rewrite Forall_forall in Hpre.
    assert (Hin : loc ∈ take i ks) by (apply elem_of_take; eauto).
    specialize (Hpre _ Hin). lia. }
  induction fuel as [|fuel IH]; intros i loc acc Hi Hpre Hfuel;
    (destruct (le_lt_dec (String.length s) loc) as [Hge|Hin];
     [exists []; rewrite app_nil_r; split; [apply Hdone, Hge | simpl; lia]|]).
  - (* no iteration left: impossible inside the text *)
    exfalso. destruct (F !! loc) as [fragment|] eqn:Hlook; [|lia].
    destruct (Hbehind i loc Hpre) as (j & Hij & Hj); [rewrite Hlook; eauto|].
    apply lookup_lt_Some in Hj. fold ks in Hfuel, Hi. lia.
  - cbn [gather].
    replace (loc <? String.length s) with true
      by (symmetry; apply Nat.ltb_lt; exact Hin).
    destruct (F !! loc) as [[style text]|] eqn:Hlook.
    + (* a capture starts here *)
      destruct (Hbehind i loc Hpre) as (j & Hij & Hj); [rewrite Hlook; eauto|].
      pose proof (lookup_lt_Some _ _ _ Hj) as Hjn.
      destruct (lookup_lt_is_Some_2 ks i) as [ki Hki]; [lia|].
      assert (Hki_le : ki <= loc).
      { destruct (decide (i = j)) as [->|Hneq]; [|].
        - rewrite Hki in Hj. injection Hj as ->. lia.
        - assert (ki < loc) by (apply (Hlt i j); [lia | assumption | assumption]).
          lia. }
      assert (Hlen : 0 < String.length text).
      { pose proof (Hne loc (style, text) Hlook Hin) as Hnonempty.
        simpl in Hnonempty. destruct text; [contradiction | simpl; lia]. }
      cbn [snd]. rewrite Nat.add_1_r.
      destruct (IH (S i) (loc + String.length text) (acc ++ [(style, text)]))
        as (out & Hrun & Hcount).
      * fold ks. lia.
      * fold ks. rewrite (take_S_r ks i ki Hki). apply Forall_app. split.
        -- eapply Forall_impl; [exact Hpre|]. simpl. intros k Hk. lia.
        -- apply Forall_singleton. lia.
      * fold ks in Hfuel |- *.
        destruct (F !! (loc + String.length text)); lia.
      * exists ((style, text) :: out). split.
        -- rewrite Hrun, <- app_assoc. reflexivity.
        -- fold ks in Hcount |- *. simpl.
           destruct (F !! (loc + String.length text)); lia.
    + (* no capture starts here *)
      fold ks in Hi, Hfuel |- *.
      destruct (decide (i = length ks)) as [Heq|Hneq].
      * (* every key is behind: jump to the end of the text *)
        assert (Hlocs : (ks ++ [String.length s]) !! i = Some (String.length s)).
        { rewrite lookup_app_r by lia. rewrite Heq, Nat.sub_diag. reflexivity. }
        rewrite Hlocs, Hdone by lia.
        exists [(dflt, slice s loc (String.length s))]. split; [reflexivity|].
        simpl. lia.
      * destruct (lookup_lt_is_Some_2 ks i) as [ki Hki]; [lia|].
        assert (Hlocs : (ks ++ [String.length s]) !! i = Some ki).
        { rewrite lookup_app_l by lia. exact Hki. }
        rewrite Hlocs.
        assert (Hkey : is_Some (F !! ki)).
        { apply sorted_keys_elem_of. apply list_elem_of_lookup. eauto. }
        destruct (IH i ki (acc ++ [(dflt, slice s loc ki)]))
          as (out & Hrun & Hcount).
        -- fold ks. lia.
        -- fold ks. apply Forall_forall. intros k Hk.
           apply elem_of_take in Hk as (i' & Hi' & Hlt').
           apply (Hlt i' i); assumption.
        -- fold ks. destruct Hkey as [fragment ->]. lia.
        -- exists ((dflt, slice s loc ki) :: out). split.
           ++ rewrite Hrun, <- app_assoc. reflexivity.
           ++ fold ks in Hcount. destruct Hkey as [fragment Hfragment].
              rewrite Hfragment in Hcount. simpl. lia.
Qed.

(** X7. When the scan has ended and no capture that starts inside the text
    is empty, [_highlight] returns: 2n+1 iterations of the reconstruction
    loop are enough for n captures, nested or overlapping ones included, no
    index error occurs, and at most 2n+1 fragments are returned. *)
Theorem highlight_returns_bounded {G : Type} (g : Grammar G) (g0 : G)
    (pygments_styles : bool) (s : string) (fuel : nat) (st : ScanState G) :
  _scan_string fuel g g0 s ∅ = Ok st ->
  nonempty_captures s (sc_fragments st) ->
  2 * size (sc_fragments st) + 1 <= fuel ->
  exists fragments,
    _highlight fuel g g0 pygments_styles s = Ok fragments /\
    length fragments <= 2 * size (sc_fragments st) + 1.
Proof.
  intros Hscan Hne Hfuel.
  destruct (gather_terminates s (sc_fragments st) (default_style pygments_styles)
              Hne fuel 0 0 []) as (out & Hrun & Hcount).
  - lia.
  - constructor.
  - rewrite sorted_keys_length.
    match goal with
    | |- context [match ?x with _ => _ end] => destruct x
    end; lia.
  - rewrite sorted_keys_length in Hcount.
    assert (Hbound : length out <= 2 * size (sc_fragments st) + 1).
    { match type of Hcount with
      | context [match ?x with _ => _ end] => destruct x
      end; lia. }
    unfold _highlight, reconstruct. rewrite Hscan, Hrun. simpl.
    exists out. split; [reflexivity | exact Hbound].
Qed.

Lemma highlight_returns_bounded_witness :
  exists st fragments,
    _scan_string 5 nested_grammar tt "abcd" ∅ = Ok st /\
    _highlight 5 nested_grammar tt false "abcd" = Ok fragments /\
    length fragments <= 2 * size (sc_fragments st) + 1.
Proof.
  eexists.
  destruct (highlight_returns_bounded nested_grammar tt
              false "abcd" 5 _ ltac:(vm_compute; reflexivity)) as (fragments & H).
  - apply (bool_decide_unpack _). vm_compute. exact I.
  - vm_compute. lia.
  - exists fragments. split; [vm_compute; reflexivity | exact H].
Defined.

(** X8. Whatever [_highlight] returns is made of two kinds of fragments
    only: a capture exactly as the scan recorded it under a key inside the
    text, or a piece of the input in the default style. *)
Theorem fragments_are_captures_or_filler {G : Type} (g : Grammar G) (g0 : G)
    (pygments_styles : bool) (s : string) (fuel : nat)
    (fragments : FormattedText) :
  _highlight fuel g g0 pygments_styles s = Ok fragments ->
  exists st,
    _scan_string fuel g g0 s ∅ = Ok st /\
    Forall (fun fragment =>
              (exists k, k < String.length s /\
                         sc_fragments st !! k = Some fragment) \/
              (exists a b, a < String.length s /\
                           fragment = (default_style pygments_styles,
                                       slice s a b)))
      fragments.
Proof.
  unfold _highlight.
  destruct (_scan_string fuel g g0 s ∅) as [st| |]; try discriminate.
  unfold reconstruct. intros Hrun.
  apply gather_origin in Hrun as (out & -> & Hall).
  exists st. split; [reflexivity | exact Hall].
Qed.

Lemma fragments_are_captures_or_filler_witness :
  exists st,
    _scan_string 5 nested_grammar tt "abcd" ∅ = Ok st /\
    Forall (fun fragment =>
              (exists k, k < 4 /\ sc_fragments st !! k = Some fragment) \/
              (exists a b, a < 4 /\
                           fragment = (StyleStr EmptyString, slice "abcd" a b)))
      [(StyleStr "class:outer", "abc"); (StyleStr EmptyString, EmptyString);
       (StyleStr "class:inner", "b"); (StyleStr EmptyString, "cd")].
Proof.
  apply (fragments_are_captures_or_filler nested_grammar tt false "abcd" 5).
  vm_compute. reflexivity.
Defined.



Lemma slice_nonempty (s : string) (a b : nat) :
  a < b -> a < String.length s -> slice s a b <> EmptyString.
Proof.
  intros Hab Ha Hempty.
  pose proof (slice_length s a b) as Hlen. rewrite Hempty in Hlen.
  simpl in Hlen. lia.
Qed.

(** The loop of [_highlight] on separated captures emits every capture that
    is still ahead and lies inside the text, and never an empty text. *)
Lemma gather_separated_complete (s : string) (F : gmap nat Fragment)
    (ks : list nat) (dflt : StyleTag) :
  StronglySorted Nat.le ks ->
  NoDup ks ->
  (forall k, k ∈ ks <-> is_Some (F !! k)) ->
  separated s F ->
  forall (fuel : nat) (pre post : list nat) (loc : nat) (acc : FormattedText),
    ks = pre ++ post ->
    Forall (fun k => k < loc) pre ->
    Forall (fun k => loc <= k) post ->
    String.length s - loc <= fuel ->
    exists out,
      gather fuel s F (ks ++ [String.length s]) dflt (length pre) loc acc
      = Ok (acc ++ out) /\
      (forall k fragment,
          k ∈ post -> k < String.length s -> F !! k = Some fragment ->
          fragment ∈ out) /\
      Forall (fun fragment => snd fragment <> EmptyString) out.
Proof.
  intros Hsorted Hnodup Hkeys Hsep.
  assert (Hdone : forall fuel i loc acc post,
    String.length s <= loc ->
    Forall (fun k => loc <= k) post ->
    exists out,
      gather fuel s F (ks ++ [String.length s]) dflt i loc acc = Ok (acc ++ out) /\
      (forall k fragment,
          k ∈ post -> k < String.length s -> F !! k = Some fragment ->
          fragment ∈ out) /\
      Forall (fun fragment => snd fragment <> EmptyString) out).
  { intros fuel i loc acc post Hloc Hpost. exists []. split; [|split].
    - rewrite app_nil_r.
      destruct fuel; cbn [gather];
        (replace (loc <? String.length s) with false
           by (symmetry; apply Nat.ltb_ge; exact Hloc)); reflexivity.
    - intros k fragment Hk Hin _. exfalso.
      rewrite Forall_forall in Hpost. specialize (Hpost _ Hk). lia.
    - constructor. }
  induction fuel as [|fuel IH]; intros pre post loc acc Hks Hpre Hpost Hfuel.
  { apply Hdone; [lia | exact Hpost]. }
  destruct (le_lt_dec (String.length s) loc) as [Hge|Hlt];
    [apply Hdone; assumption|].
  cbn [gather].
  replace (loc <? String.length s) with true
    by (symmetry; apply Nat.ltb_lt; exact Hlt).
  assert (Hpost_sorted : StronglySorted Nat.le post).
  { rewrite Hks in Hsorted. eapply StronglySorted_app_1_r, Hsorted. }
  destruct (F !! loc) as [[style text]|] eqn:Hlook.
  - assert (Hin : loc ∈ ks) by (apply Hkeys; eauto).
    rewrite Hks in Hin. apply elem_of_app in Hin as [Hin|Hin].
    { rewrite Forall_forall in Hpre. specialize (Hpre _ Hin). lia. }
    destruct post as [|h post']; [inversion Hin|].
    apply StronglySorted_cons in Hpost_sorted as [Hh_le Hpost'_sorted].
    assert (Hh : h = loc).
    { apply elem_of_cons in Hin as [Heq|Hin]; [congruence|].
      rewrite Forall_forall in Hh_le. specialize (Hh_le _ Hin).
      apply Forall_cons in Hpost as [Hlh _]. unfold Nat.le in *. lia. }
    subst h.
    destruct (Hsep loc (style, text) Hlook Hlt) as [Hne Hinside].
    cbn [snd] in Hne, Hinside |- *.
    assert (Hlen : 0 < String.length text).
    { destruct text; [contradiction | simpl; lia]. }
    destruct (IH (pre ++ [loc]) post' (loc + String.length text)
                (acc ++ [(style, text)])) as (out & Hrun & Hall & Hnonempty).
    + rewrite Hks, <- app_assoc. reflexivity.
    + apply Forall_app. split.
      * eapply Forall_impl; [exact Hpre|]. simpl. intros k Hk. lia.
      * apply Forall_singleton. lia.
    + apply Forall_forall. intros k' Hk'.
      assert (Hle : loc <= k').
      { rewrite Forall_forall in Hh_le. apply (Hh_le _ Hk'). }
      assert (Hneq : k' <> loc).
      { intros ->. rewrite Hks in Hnodup.
        apply NoDup_app in Hnodup as (_ & _ & Hnd).
        apply NoDup_cons in Hnd as [Hnotin _]. contradiction. }
      destruct (le_lt_dec (loc + String.length text) k') as [Hok|Hbad];
        [exact Hok|].
      exfalso. rewrite Forall_forall in Hinside.
      assert (Hnone : F !! k' = None).
      { apply Hinside. apply elem_of_seq. lia. }
      assert (Hsome : is_Some (F !! k')).
      { apply Hkeys. rewrite Hks. apply elem_of_app. right.
        apply elem_of_cons. right. exact Hk'. }
      rewrite Hnone in Hsome. destruct Hsome as [? ?]. discriminate.
    + lia.
    + exists ((style, text) :: out). split; [|split].
      * rewrite length_app in Hrun. cbn [length] in Hrun.
        rewrite Hrun, <- app_assoc. reflexivity.
      * intros k fragment Hk Hkin Hfragment.
        apply elem_of_cons in Hk as [->|Hk].
        -- assert (Heq : Some fragment = Some (style, text))
             by (rewrite <- Hfragment; exact Hlook).
           injection Heq as ->. apply elem_of_cons. left. reflexivity.
        -- apply elem_of_cons. right. eapply Hall; eassumption.
      * constructor; [exact Hne | exact Hnonempty].
  - assert (Hlocs : (ks ++ [String.length s]) !! length pre
                    = Some (match post with
                            | [] => String.length s
                            | b :: _ => b
                            end)).
    { rewrite Hks, <- app_assoc.
      rewrite lookup_app_r by lia. rewrite Nat.sub_diag.
      destruct post; reflexivity. }
    rewrite Hlocs.
    set (b := match post with [] => String.length s | b :: _ => b end) in *.
    assert (Hb : loc < b).
    { subst b. destruct post as [|b post']; [exact Hlt|].
      apply Forall_cons in Hpost as [Hlb _].
      assert (Hsome : is_Some (F !! b)).
      { apply Hkeys. rewrite Hks. apply elem_of_app. right.
        apply elem_of_cons. left. reflexivity. }
      destruct (decide (b = loc)) as [Heq|Hne]; [|lia].
      rewrite Heq in Hsome. destruct Hsome as [x Hx].
      assert (Hcontra : Some x = None) by (rewrite <- Hx; exact Hlook).
      discriminate. }
    destruct (IH pre post b (acc ++ [(dflt, slice s loc b)]))
      as (out & Hrun & Hall & Hnonempty).
    + exact Hks.
    + eapply Forall_impl; [exact Hpre|]. simpl. intros k Hk. lia.
    + subst b. destruct post as [|b post']; [constructor|].
      apply StronglySorted_cons in Hpost_sorted as [Hb_le _].
      apply Forall_cons. split; [lia | exact Hb_le].
    + lia.
    + exists ((dflt, slice s loc b) :: out). split; [|split].
      * rewrite Hrun, <- app_assoc. reflexivity.
      * intros k fragment Hk Hkin Hfragment.
        apply elem_of_cons. right. eapply Hall; eassumption.
      * constructor; [|exact Hnonempty]. cbn [snd].
        apply slice_nonempty; assumption.
Qed.

(** X10. When the scan has ended and the captures it left are separated,
    [_highlight] drops nothing and pads nothing: every capture that starts
    inside the text is among the fragments returned, and no returned
    fragment has an empty text. *)
Theorem separated_captures_all_shown {G : Type} (g : Grammar G) (g0 : G)
    (pygments_styles : bool) (s : string) (fuel : nat) (st : ScanState G) :
  _scan_string fuel g g0 s ∅ = Ok st ->
  separated s (sc_fragments st) ->
  String.length s <= fuel ->
  exists fragments,
    _highlight fuel g g0 pygments_styles s = Ok fragments /\
    (forall k fragment,
        k < String.length s -> sc_fragments st !! k = Some fragment ->
        fragment ∈ fragments) /\
    Forall (fun fragment => snd fragment <> EmptyString) fragments.
Proof.
  intros Hscan Hsep Hfuel.
  destruct (gather_separated_complete s (sc_fragments st)
              (sorted_keys (sc_fragments st)) (default_style pygments_styles)
              (sorted_keys_sorted _) (sorted_keys_NoDup _)
              (sorted_keys_elem_of _) Hsep fuel []
              (sorted_keys (sc_fragments st)) 0 [])
    as (out & Hrun & Hall & Hnonempty).
  - reflexivity.
  - constructor.
  - apply Forall_forall. intros k _. lia.
  - lia.
  - exists out. split; [|split].
    + unfold _highlight, reconstruct. rewrite Hscan. exact Hrun.
    + intros k fragment Hk Hlook. apply (Hall k); [|exact Hk | exact Hlook].
      apply sorted_keys_elem_of. rewrite Hlook. eauto.
    + exact Hnonempty.
Qed.

Lemma separated_captures_all_shown_witness :
  exists st fragments,
    _scan_string 6 integer_grammar tt "1, 22" ∅ = Ok st /\
    _highlight 6 integer_grammar tt false "1, 22" = Ok fragments /\
    (forall k fragment,
        k < 5 -> sc_fragments st !! k = Some fragment -> fragment ∈ fragments) /\
    Forall (fun fragment => snd fragment <> EmptyString) fragments.
Proof.
  eexists.
  destruct (separated_captures_all_shown integer_grammar tt false "1, 22" 6 _
              ltac:(vm_compute; reflexivity)) as (fragments & H).
  - apply (bool_decide_unpack _). vm_compute. exact I.
  - simpl. lia.
  - exists fragments. split; [vm_compute; reflexivity | exact H].
Defined.

(** ** Class names and HTML *)

Lemma css_class_walk (STANDARD_TYPES : Token -> option string)
    (rev_token : list string) (css : string) :
  _pygments_css_class STANDARD_TYPES rev_token = Ok css <->
  exists k,
    k <= length rev_token /\
    STANDARD_TYPES (rev (drop k rev_token)) = Some css /\
    forall j, j < k -> STANDARD_TYPES (rev (drop j rev_token)) = None.
Proof.
  induction rev_token as [|name parent IH]; cbn [_pygments_css_class].
  - destruct (STANDARD_TYPES (rev [])) as [css0|] eqn:Hroot.
    + split.
      * intros [= ->]. exists 0. split; [simpl; lia|]. split; [exact Hroot|].
        intros j Hj. lia.
      * intros (k & Hk & Hfound & _). simpl in Hk.
        replace k with 0 in Hfound by lia. simpl in Hfound, Hroot. congruence.
    + split; [discriminate|].
      intros (k & Hk & Hfound & _). simpl in Hk.
      replace k with 0 in Hfound by lia. simpl in Hfound, Hroot. congruence.
  - destruct (STANDARD_TYPES (rev (name :: parent))) as [css0|] eqn:Hself.
    + split.
      * intros [= ->]. exists 0. split; [lia|]. split; [exact Hself|].
        intros j Hj. lia.
      * intros (k & Hk & Hfound & Hnone).
        destruct k as [|k]; [cbn [drop] in Hfound; congruence|].
        specialize (Hnone 0 ltac:(lia)). cbn [drop] in Hnone. congruence.
    + rewrite IH. split.
      * intros (k & Hk & Hfound & Hnone). exists (S k).
        split; [simpl; lia|]. split; [exact Hfound|].
        intros [|j] Hj; [exact Hself | apply Hnone; lia].
      * intros (k & Hk & Hfound & Hnone).
        destruct k as [|k]; [cbn [drop] in Hfound; congruence|].
        exists k. split; [simpl in Hk; lia|]. split; [exact Hfound|].
        intros j Hj. apply (Hnone (S j)). lia.
Qed.

Lemma rev_drop_rev (tok : Token) (k : nat) :
  rev (drop k (rev tok)) = ancestor k tok.
Proof. unfold ancestor. rewrite skipn_rev, rev_involutive. reflexivity. Qed.

(** X11. [_pygments_css_class] answers the class of the nearest registered
    token on the way from the token up to the root: it returns [css] exactly
    when some ancestor (the token itself counted) has [css] in
    [STANDARD_TYPES] and none below it is in the table. *)
Theorem css_class_of_nearest_ancestor (STANDARD_TYPES : Token -> option string)
    (tok : Token) (css : string) :
  _pygments_css_class STANDARD_TYPES (rev tok) = Ok css <->
  exists k,
    k <= length tok /\
    STANDARD_TYPES (ancestor k tok) = Some css /\
    forall j, j < k -> STANDARD_TYPES (ancestor j tok) = None.
Proof.
  rewrite css_class_walk. rewrite length_rev.
  split; intros (k & Hk & Hfound & Hnone); exists k;
    (split; [exact Hk|]); split.
  - rewrite <- rev_drop_rev. exact Hfound.
  - intros j Hj. rewrite <- rev_drop_rev. apply Hnone, Hj.
  - rewrite rev_drop_rev. exact Hfound.
  - intros j Hj. rewrite rev_drop_rev. apply Hnone, Hj.
Qed.

(** X12. When the root [Token] is in [STANDARD_TYPES], as it is in Pygments,
    [_pygments_css_class] finds a class for every token and never runs off
    the root. *)
Theorem css_class_total (STANDARD_TYPES : Token -> option string)
    (root_css : string) (tok : Token) :
  STANDARD_TYPES [] = Some root_css ->
  exists css, _pygments_css_class STANDARD_TYPES (rev tok) = Ok css.
Proof.
  intros Hroot.
  assert (Hwalk : forall rev_token,
    exists css, _pygments_css_class STANDARD_TYPES rev_token = Ok css).
  { induction rev_token as [|name parent IH]; cbn [_pygments_css_class].
    - simpl. rewrite Hroot. eauto.
    - destruct (STANDARD_TYPES (rev (name :: parent))); eauto. }
  apply Hwalk.
Qed.

Lemma css_class_total_witness :
  exists css,
    _pygments_css_class example_types (rev ["Name"; "Function"; "Magic"]) = Ok css.
Proof.
  apply (css_class_total example_types EmptyString ["Name"; "Function"; "Magic"]).
  reflexivity.
Defined.

Lemma scan_empty_text {G : Type} (g : Grammar G) (g0 g1 : G)
    (calls : list ActionCall) (preloc fuel : nat) :
  preParse g g0 EmptyString 0 = (g1, calls, inr preloc) ->
  exists st, _scan_string (S fuel) g g0 EmptyString ∅ = Ok st.
Proof.
  intros Hpre. unfold _scan_string. simpl. unfold scan_iteration. simpl.
  rewrite Hpre.
  destruct (_parse g g1 EmptyString preloc) as [[g2 calls2] [err|nextloc]];
    unfold except_branch; simpl.
  - destruct fuel; simpl; rewrite Nat.add_1_r; simpl; eauto.
  - destruct nextloc as [|nextloc]; simpl.
    + destruct fuel; simpl; rewrite Nat.add_1_r; simpl; eauto.
    + destruct fuel; simpl; eauto.
Qed.

(** X13. When the skip rule does not fail at offset 0, [highlight_html('')]
    is the enclosing [span] with nothing inside, in either style mode. *)
Theorem highlight_html_empty_text {G : Type}
    (STANDARD_TYPES : Token -> option string) (g : Grammar G) (g0 g1 : G)
    (calls : list ActionCall) (preloc : nat) (pygments_styles : bool)
    (fuel : nat) :
  preParse g g0 EmptyString 0 = (g1, calls, inr preloc) ->
  highlight_html STANDARD_TYPES (S fuel) g g0 pygments_styles EmptyString
  = Ok (highlight_open +:+ "</span>").
Proof.
  intros Hpre.
  destruct (scan_empty_text g g0 g1 calls preloc fuel Hpre) as [st Hscan].
  unfold highlight_html, _highlight. rewrite Hscan. reflexivity.
Qed.

Lemma highlight_html_empty_text_witness :
  highlight_html example_types 1 integer_grammar tt true EmptyString
  = Ok (highlight_open +:+ "</span>").
Proof.
  apply (highlight_html_empty_text example_types integer_grammar tt tt [] 0 true 0).
  reflexivity.
Defined.

Lemma reconstruct_no_capture (pygments_styles : bool) (s : string) (fuel : nat) :
  s <> EmptyString ->
  reconstruct (S fuel) pygments_styles s ∅
  = Ok [(default_style pygments_styles, s)].
Proof.
  intros Hs. unfold reconstruct, sorted_keys.
  rewrite dom_empty_L, elements_empty.
  destruct s as [|c s]; [contradiction|].
  change (merge_sort Nat.le [] ++ [String.length (String c s)])
    with [String.length (String c s)].
  cbn [gather]. change (0 <? String.length (String c s)) with true. cbv iota.
  rewrite lookup_empty. cbn [lookup list_lookup app].
  rewrite slice_whole.
  destruct fuel; cbn [gather]; rewrite Nat.ltb_irrefl; reflexivity.
Qed.

(** X14. For a non-empty text in which nothing was captured,
    [highlight_html] is the escaped text inside the enclosing [span], with
    no inner [span]: in free-form mode always, and in Pygments mode when
    the class of [Token.Text] is the empty string, as it is in Pygments. *)
Theorem highlight_html_no_capture {G : Type}
    (STANDARD_TYPES : Token -> option string) (g : Grammar G) (g0 : G)
    (pygments_styles : bool) (s : string) (fuel : nat) (st : ScanState G) :
  s <> EmptyString ->
  _scan_string fuel g g0 s ∅ = Ok st ->
  sc_fragments st = ∅ ->
  pygments_styles = false \/ STANDARD_TYPES ["Text"] = Some EmptyString ->
  highlight_html STANDARD_TYPES fuel g g0 pygments_styles s
  = Ok (highlight_open +:+ html_escape s +:+ "</span>").
Proof.
  intros Hs Hscan Hempty Hmode.
  destruct fuel as [|fuel].
  { unfold _scan_string in Hscan. simpl in Hscan. discriminate. }
  unfold highlight_html, _highlight. rewrite Hscan, Hempty.
  rewrite (reconstruct_no_capture pygments_styles s fuel Hs).
  assert (Htag : fragment_classes STANDARD_TYPES pygments_styles
                   (default_style pygments_styles) = Ok []
                 \/ fragment_classes STANDARD_TYPES pygments_styles
                      (default_style pygments_styles) = Ok [EmptyString]).
  { destruct pygments_styles.
    - right. destruct Hmode as [Hoff|Htext]; [discriminate|].
      unfold fragment_classes. cbn. rewrite Htext. reflexivity.
    - left. reflexivity. }
  cbn [html_tags].
  destruct Htag as [-> | ->]; cbn [html_tags fragment_tag app];
    unfold join_all; cbn [String.concat]; reflexivity.
Qed.

Lemma highlight_html_no_capture_witness :
  highlight_html example_types 4 never_grammar tt true "a<b"
  = Ok (highlight_open +:+ html_escape "a<b" +:+ "</span>").
Proof.
  refine (highlight_html_no_capture example_types never_grammar tt true "a<b" 4
            _ _ _ _ _).
  - discriminate.
  - vm_compute. reflexivity.
  - reflexivity.
  - right. reflexivity.
Defined.

Lemma markup_free_append (s1 s2 : string) :
  markup_free (s1 +:+ s2) = markup_free s1 && markup_free s2.
Proof.
  induction s1 as [|c s1 IH]; [reflexivity|].
  rewrite append_String. simpl. rewrite IH. apply andb_assoc.
Qed.

Lemma escape_char_markup_free (c : ascii) : markup_free (escape_char c) = true.
Proof.
  unfold escape_char.
  destruct (c =? "&")%char eqn:Hamp; [reflexivity|].
  destruct (c =? "<")%char eqn:Hlt; [reflexivity|].
  destruct (c =? ">")%char eqn:Hgt; [reflexivity|].
  destruct (c =? "034")%char eqn:Hdq; [reflexivity|].
  destruct (c =? "'")%char eqn:Hsq; [reflexivity|].
  simpl. unfold is_markup. rewrite Hlt, Hgt, Hdq, Hsq. reflexivity.
Qed.

Lemma html_escape_markup_free (s : string) : markup_free (html_escape s) = true.
Proof.
  induction s as [|c s IH]; [reflexivity|]. simpl.
  rewrite markup_free_append, escape_char_markup_free, IH. reflexivity.
Qed.

Lemma concat_markup_free (l : list string) :
  Forall (fun name => markup_free name = true) l ->
  markup_free (String.concat " " l) = true.
Proof.
  induction l as [|name l IH]; intros Hall; [reflexivity|].
  apply Forall_cons in Hall as [Hname Hall].
  destruct l as [|name' l]; [exact Hname|].
  change (String.concat " " (name :: name' :: l))
    with (name +:+ " " +:+ String.concat " " (name' :: l)).
  rewrite !markup_free_append, Hname, (IH Hall). reflexivity.
Qed.

(** X15. In free-form mode no markup character of the input reaches the
    output: the tag of a fragment is either the escaped text or the
    template filled with the joined classes and the escaped text, and
    neither of the two fillers contains [<], [>] or a quote. *)
Theorem freeform_tag_escapes_markup (style text : string) :
  (freeform_tag (StyleStr style, text) = html_escape text \/
   freeform_tag (StyleStr style, text)
   = template (String.concat " " (freeform_classes style)) (html_escape text)) /\
  markup_free (String.concat " " (freeform_classes style)) = true /\
  markup_free (html_escape text) = true.
Proof.
  split; [|split].
  - unfold freeform_tag, fragment_tag. cbn [fst snd].
    destruct (freeform_classes style) as [|[|c name] names]; auto.
  - apply concat_markup_free. rewrite freeform_classes_names.
    apply Forall_forall. intros name Hname.
    apply list_elem_of_In, in_map_iff in Hname as (raw & <- & _).
    apply html_escape_markup_free.
  - apply html_escape_markup_free.
Qed.

(** X16. In free-form mode the loop over the fragments succeeds when every
    style is a string, appending one tag per fragment in order, and raises
    [AttributeError] as soon as a style is a Pygments token. *)
Theorem freeform_html_needs_string_styles
    (STANDARD_TYPES : Token -> option string) (fragments : FormattedText) :
  forall tags : list string,
    (Forall is_string_style fragments ->
     html_tags STANDARD_TYPES false fragments tags
     = Ok (tags ++ map freeform_tag fragments)) /\
    (~ Forall is_string_style fragments ->
     html_tags STANDARD_TYPES false fragments tags = Raise AttributeError).
Proof.
  induction fragments as [|[style text] rest IH]; intros tags.
  - split.
    + intros _. simpl. rewrite app_nil_r. reflexivity.
    + intros Hnot. contradiction Hnot. constructor.
  - destruct style as [st|tok]; cbn [html_tags fragment_classes].
    + destruct (IH (tags ++ [fragment_tag (freeform_classes st) text]))
        as [Hok Hraise].
      split.
      * intros Hall. apply Forall_cons in Hall as [_ Hall].
        rewrite (Hok Hall), <- app_assoc. reflexivity.
      * intros Hnot. apply Hraise. intros Hall. apply Hnot.
        constructor; [exact I | exact Hall].
    + split; [|reflexivity].
      intros Hall. apply Forall_cons in Hall as [Hbad _]. contradiction.
Qed.

(** ** The wrapper at work *)

(** X17. With parse actions on, the rule wrapped by [styler] parses the
    inner rule from the wrapper's skip position without a second skip. When
    the inner rule fails, the wrapper fails the same way and runs its action
    not at all; when it succeeds, the wrapper returns the same end and
    tokens and runs its action once, after the inner rule's, so that the
    table then holds under the skip position the wrapper's style with the
    input from there to the end, whatever an inner styled rule stored
    there. *)
Theorem styler_records_span (locator_preParse : string -> nat -> nat)
    (style : StyleTag) (expr : ParserElement) (s : string) (loc : nat)
    (F : gmap nat Fragment) :
  let start := locator_preParse s loc in
  match element_parse expr s start true false with
  | (calls, inl err) =>
      element_parse (styler locator_preParse style expr) s loc true true
      = (calls, inl err)
  | (calls, inr (end_loc, toks)) =>
      element_parse (styler locator_preParse style expr) s loc true true
      = (calls ++ [MkActionCall style start end_loc], inr (end_loc, toks)) /\
      run_actions s F (calls ++ [MkActionCall style start end_loc]) !! start
      = Some (style, slice s start end_loc)
  end.
Proof.
  intros start.
  assert (Hwrapped :
    element_parse (styler locator_preParse style expr) s loc true true
    = match element_parse expr s start true false with
      | (calls, inl err) => (calls, inl err)
      | (calls, inr (end_loc, toks)) =>
          (calls ++ [MkActionCall style start end_loc], inr (end_loc, toks))
      end).
  { unfold element_parse at 1.
    cbn [styler setParseAction Locator pe_preParse pe_parseImpl pe_parseAction].
    unfold Locator_parseImpl. fold start.
    destruct (element_parse expr s start true false)
      as [calls [err|[end_loc toks]]]; [reflexivity|].
    cbn [run_parse_actions]. unfold styler_action. rewrite pop_snoc.
    rewrite app_nil_r. reflexivity. }
  rewrite Hwrapped.
  destruct (element_parse expr s start true false)
    as [calls [err|[end_loc toks]]]; [reflexivity|].
  split; [reflexivity|].
  unfold run_actions. rewrite foldl_app. simpl. unfold action at 1. simpl.
  apply lookup_insert_eq.
Qed.

(** X18. With parse actions off (a lookahead), the wrapped rule runs its
    action not at all, so nothing is recorded for it, and the end location
    that [Locator.parseImpl] appended stays as the last token. *)
Theorem styler_without_actions (locator_preParse : string -> nat -> nat)
    (style : StyleTag) (expr : ParserElement) (s : string) (loc : nat) :
  element_parse (styler locator_preParse style expr) s loc false true
  = match element_parse expr s (locator_preParse s loc) false false with
    | (calls, inl err) => (calls, inl err)
    | (calls, inr (end_loc, toks)) =>
        (calls, inr (end_loc, toks ++ [TokInt end_loc]))
    end.
Proof.
  unfold element_parse at 1.
  cbn [styler setParseAction Locator pe_preParse pe_parseImpl pe_parseAction].
  unfold Locator_parseImpl.
  destruct (element_parse expr s (locator_preParse s loc) false false)
    as [calls [err|[end_loc toks]]]; reflexivity.
Qed.


(** ** What [_highlight] can raise *)

(** The index [i] of the loop of [_highlight] never runs past [locs]: either
    the first [i] keys are behind [loc], or the loop sits on an empty
    capture, which it never leaves. *)
Lemma gather_never_raises (s : string) (F : gmap nat Fragment) (dflt : StyleTag)
    (fuel : nat) :
  forall (i loc : nat) (acc : FormattedText) (err : exn),
    (i <= length (sorted_keys F) /\
     Forall (fun k => k < loc) (take i (sorted_keys F))) \/
    (exists style, F !! loc = Some (style, EmptyString)) ->
    gather fuel s F (sorted_keys F ++ [String.length s]) dflt i loc acc
    <> Raise err.
Proof.
  set (ks := sorted_keys F).
  assert (Hlt : forall i j x y,
    i < j -> ks !! i = Some x -> ks !! j = Some y -> x < y).
  { apply strictly_sorted_lookup;
      [apply sorted_keys_sorted | apply sorted_keys_NoDup]. }
  induction fuel as [|fuel IH]; intros i loc acc err Hinv; cbn [gather];
    destruct (loc <? String.length s) eqn:Hloc; try discriminate.
  destruct (F !! loc) as [[style text]|] eqn:Hlook.
  - (* a capture starts here *)
    apply IH. cbn [snd].
    destruct text as [|c text].
    { right. simpl. rewrite Nat.add_0_r. eauto. }
    destruct Hinv as [[Hi Hpre] | [style' Hstuck]].
    2: { discriminate. }
    left.
    assert (Hsome : is_Some (F !! loc)) by eauto.
    apply sorted_keys_elem_of in Hsome.
    apply list_elem_of_lookup in Hsome as [j Hj]. fold ks in Hj.
    assert (Hij : i <= j).
    { destruct (le_lt_dec i j) as [Hle|Hgt]; [exact Hle|]. exfalso.
      rewrite Forall_forall in Hpre.
      assert (Hin : loc ∈ take i ks) by (apply elem_of_take; eauto).
      specialize (Hpre _ Hin). lia. }
    pose proof (lookup_lt_Some _ _ _ Hj) as Hjn.
    destruct (lookup_lt_is_Some_2 ks i) as [ki Hki]; [lia|].
    assert (Hki_le : ki <= loc).
    { destruct (decide (i = j)) as [->|Hneq].
      - rewrite Hki in Hj. injection Hj as ->. lia.
      - assert (ki < loc) by (apply (Hlt i j); [lia | assumption | assumption]).
        lia. }
    rewrite Nat.add_1_r. fold ks. split; [lia|].
    rewrite (take_S_r ks i ki Hki). apply Forall_app. split.
    + eapply Forall_impl; [exact Hpre|]. simpl. intros k Hk. lia.
    + apply Forall_singleton. simpl. lia.
  - (* no capture starts here *)
    destruct Hinv as [[Hi Hpre] | [style' Hstuck]].
    2: { discriminate. }
    fold ks in Hi, Hpre |- *.
    destruct (decide (i = length ks)) as [Heq|Hneq].
    + assert (Hlocs : (ks ++ [String.length s]) !! i = Some (String.length s)).
      { rewrite lookup_app_r by lia. rewrite Heq, Nat.sub_diag. reflexivity. }
      rewrite Hlocs.
      destruct fuel; cbn [gather]; rewrite Nat.ltb_irrefl; discriminate.
    + destruct (lookup_lt_is_Some_2 ks i) as [ki Hki]; [lia|].
      assert (Hlocs : (ks ++ [String.length s]) !! i = Some ki).
      { rewrite lookup_app_l by lia. exact Hki. }
      rewrite Hlocs. apply IH. left. fold ks. split; [lia|].
      apply Forall_forall. intros k Hk.
      apply elem_of_take in Hk as (i' & Hi' & Hlt').
      apply (Hlt i' i); assumption.
Qed.

(** X21. The part of [_highlight] that follows the scan never raises,
    whatever the table of captures holds: the index into [locs] never runs
    out of range. *)
Theorem reconstruction_never_raises (fuel : nat) (pygments_styles : bool)
    (s : string) (F : gmap nat Fragment) (err : exn) :
  reconstruct fuel pygments_styles s F <> Raise err.
Proof.
  unfold reconstruct. apply gather_never_raises.
  left. split; [lia | constructor].
Qed.

(** X1. For a text, and with [warn] returning as it does unless warnings are
    turned into errors, [_highlight] raises in one case only: the skip rule
    failed in the first iteration of the scan, and what is raised is that
    failure. No later failure of the grammar, no fault in a parse action and
    no table of captures makes it raise. *)
Theorem raises_iff_first_skip_fails_only {G : Type} (g : Grammar G)
    (g0 : G) (pygments_styles : bool) (s : string) (fuel : nat) (err : exn) :
  _highlight fuel g g0 pygments_styles s = Raise err <->
  0 < fuel /\ snd (preParse g g0 s 0) = inl err.
Proof.
  rewrite <- (scan_raises_iff_first_skip_fails g g0 s ∅ fuel err).
  unfold _highlight.
  destruct (_scan_string fuel g g0 s ∅) as [st|e|] eqn:Hscan.
  - split; [|discriminate]. intros Hraise. exfalso.
    unfold reconstruct in Hraise. revert Hraise.
    apply gather_never_raises. left. split; [lia | constructor].
  - split; intros [= ->]; reflexivity.
  - split; discriminate.
Qed.

(** X20. A capture at offset 0 whose text is the whole (non-empty) input
    makes [_highlight] return that capture alone: no filler follows it, and
    captures recorded inside it are not shown. *)
Theorem whole_text_capture_alone {G : Type} (g : Grammar G) (g0 : G)
    (pygments_styles : bool) (s : string) (fuel : nat) (st : ScanState G)
    (style : StyleTag) :
  s <> EmptyString ->
  _scan_string fuel g g0 s ∅ = Ok st ->
  sc_fragments st !! 0 = Some (style, s) ->
  _highlight fuel g g0 pygments_styles s = Ok [(style, s)].
Proof.
  intros Hs Hscan Hlook.
  destruct fuel as [|fuel].
  { unfold _scan_string in Hscan. simpl in Hscan. discriminate. }
  unfold _highlight, reconstruct. rewrite Hscan. cbn [gather].
  destruct s as [|c s]; [contradiction|].
  change (0 <? String.length (String c s)) with true. cbv iota.
  rewrite Hlook. cbn [snd app]. rewrite Nat.add_0_l.
  destruct fuel; cbn [gather]; rewrite Nat.ltb_irrefl; reflexivity.
Qed.

Lemma whole_text_capture_alone_witness :
  _highlight 4 nested_grammar tt false "abc" = Ok [(StyleStr "class:outer", "abc")].
Proof.
  refine (whole_text_capture_alone nested_grammar tt false "abc" 4 _
            (StyleStr "class:outer") _ _ _).
  - discriminate.
  - vm_compute. reflexivity.
  - reflexivity.
Defined.

(** ** Faults and the caller *)






(** C10, as stated, fails when the skip rule fails at offset 0: then
    [highlight('')] raises that failure and returns no sequence at all. *)
Lemma highlight_empty_text_can_raise :
  highlight (fun style => style) 1 skip_fault_grammar tt false EmptyString
  = Raise (OtherException "ZeroDivisionError" "division by zero") /\
  highlight (fun style => style) 1 skip_fault_grammar tt false EmptyString
  <> Ok [].
Proof. split; [reflexivity | discriminate]. Qed.

Lemma to_formatted_text_string (pygments_display : StyleTag -> StyleTag)
    (fragments : FormattedText) :
  ~ Forall is_token_style fragments ->
  to_formatted_text pygments_display fragments = Raise StyleTypeError.
Proof.
  induction fragments as [|[style text] rest IH]; intros Hnot.
  - contradiction Hnot. constructor.
  - destruct style as [st|tok]; cbn [to_formatted_text]; [reflexivity|].
    rewrite IH; [reflexivity|].
    intros Hrest. apply Hnot. constructor; [exact I | exact Hrest].
Qed.

(** X19. With Pygments styles on, [highlight] hands what [_highlight]
    returned to prompt_toolkit: when every fragment carries a token it
    returns the same texts with each style replaced, and when some fragment
    carries a string style it raises [TypeError]. *)
Theorem highlight_needs_token_styles {G : Type}
    (pygments_display : StyleTag -> StyleTag) (g : Grammar G) (g0 : G)
    (s : string) (fuel : nat) (fragments : FormattedText) :
  _highlight fuel g g0 true s = Ok fragments ->
  (Forall is_token_style fragments ->
   highlight pygments_display fuel g g0 true s
   = Ok (shown pygments_display fragments)) /\
  (~ Forall is_token_style fragments ->
   highlight pygments_display fuel g g0 true s = Raise StyleTypeError).
Proof.
  intros Hrun. unfold highlight. rewrite Hrun. split.
  - apply to_formatted_text_tokens.
  - apply to_formatted_text_string.
Qed.

Lemma highlight_needs_token_styles_witness :
  highlight (fun style => style) 3 letter_grammar tt true "a"
  = Raise StyleTypeError.
Proof.
  refine (proj2 (highlight_needs_token_styles (fun style => style)
                   letter_grammar tt "a" 3 [(StyleStr "class:a", "a")] _) _).
  - vm_compute. reflexivity.
  - intros Hall. apply Forall_cons in Hall as [Hbad _]. exact Hbad.
Defined.
